(** * Quick-view widget of [src/assets/custom.js]

    A shallow embedding of the quick-view script: the variant resolver
    [findVariant], the picker builder and its pre-seeding, the cart
    gateway [addToCart], the upsell rule of the add handler, the money
    formatter, the upsell-id lookup and the modal / scroll-lock lifecycle.

    Conventions of the embedding.
    - A JS string is the Stdlib [string] of its UTF-8 encoding (WTF-8
      for lone surrogates). The encoding is injective, so equality is
      byte equality; an ASCII character occurs in it only as itself, so
      searching for ASCII text ([includes] with an ASCII needle, the
      ['<'] / ['>'] scan of the tag stripper) is the same on bytes and on
      code units. White space beyond ASCII and the characters CSS
      replaces are matched by their byte sequences.
    - [String.prototype.toLowerCase] (the Unicode default case
      conversion) is a variable of the section that holds the add
      handler: every result stated about it holds for any string
      function in its place.
    - An option slot of a variant is a [jsval]: a string, [null] or
      [undefined]. An attribute that may be missing is an [option].
    - The [selections] object is a [jsobject]: its own properties plus
      its prototype link to [Object.prototype], whose inherited
      properties and [__proto__] setter the code can hit.
    - A JS Number produced by [Number(...)] is a [jsnum]: NaN, an infinity,
      or a decimal [(-1)^neg * m * 10^e], standing for the double nearest
      to it (the value of the literal before rounding); the code uses such
      numbers through truthiness (underflow to 0), which [js_truthy_num]
      computes exactly, and by passing them on unchanged.
    - The money formatter computes with IEEE-754 doubles ([dbl]).
    - Variant ids and prices are integers ([Z]); [modal.dataset.variantId]
      stores [String(id)] and is read back through [Number], which is the
      identity on integers, so the model stores the id itself.
    - Network calls are answered by an oracle: a list of outcomes consumed
      in call order; user-visible effects are recorded in a trace. *)

From Stdlib Require Import String Ascii ZArith List Bool Lia Permutation DecimalN.
Import ListNotations.
Open Scope string_scope.
Open Scope Z_scope.

(* ------------------------------------------------------------------ *)
(** ** Strings *)

Definition js_truthy_str (o : option string) : bool :=
  match o with
  | Some s => negb (String.eqb s "")
  | None => false
  end.

(** The string held by a value that may be missing; the code reads one
    only after testing it truthy. A missing attribute is [null]. *)
Definition attr_of (o : option string) : string :=
  match o with
  | Some s => s
  | None => "null"
  end.

(** Lower-casing of ASCII letters, the part of [toLowerCase] on which all
    case mappings agree; used to run the add handler on examples. *)
Definition lower_ascii (c : ascii) : ascii :=
  let n := nat_of_ascii c in
  if andb (Nat.leb 65 n) (Nat.leb n 90) then ascii_of_nat (n + 32) else c.

Fixpoint toLowerCase_ascii (s : string) : string :=
  match s with
  | EmptyString => EmptyString
  | String c r => String (lower_ascii c) (toLowerCase_ascii r)
  end.

(** [String.prototype.includes]. *)
Fixpoint starts_with (p s : string) : bool :=
  match p, s with
  | EmptyString, _ => true
  | String c p', String d s' => Ascii.eqb c d && starts_with p' s'
  | String _ _, EmptyString => false
  end.

Fixpoint includes (s p : string) : bool :=
  starts_with p s ||
  match s with
  | EmptyString => false
  | String _ s' => includes s' p
  end.

(* ------------------------------------------------------------------ *)
(** ** Numbers: [Number(string)] (StringToNumber) *)

Inductive jsnum : Type :=
| JNaN
| JInf (neg : bool)
| JDec (neg : bool) (m : Z) (e : Z).

Definition num_of_Z (z : Z) : jsnum := JDec (z <? 0) (Z.abs z) 0.

(** A decimal rounds to (signed) zero as a double iff its magnitude is at
    most 2^-1075, half of the least subnormal (ties go to the even 0). *)
Definition rounds_to_zero (m e : Z) : bool :=
  (m =? 0) || ((e <? 0) && (m * 2 ^ 1075 <=? 10 ^ (- e))).

(** ToBoolean of a Number: false exactly for NaN, +0 and -0. *)
Definition js_truthy_num (n : jsnum) : bool :=
  match n with
  | JNaN => false
  | JInf _ => true
  | JDec _ m e => negb (rounds_to_zero m e)
  end.

(** StrWhiteSpaceChar (WhiteSpace and LineTerminator) in UTF-8. One
    byte: TAB, LF, VT, FF, CR, SP. *)
Definition is_ws (c : ascii) : bool :=
  let n := nat_of_ascii c in
  Nat.eqb n 32 || (Nat.leb 9 n && Nat.leb n 13).

(** Two bytes: U+00A0 (C2 A0). *)
Definition is_ws2 (a b : ascii) : bool :=
  Nat.eqb (nat_of_ascii a) 194 && Nat.eqb (nat_of_ascii b) 160.

(** Three bytes: U+1680, U+2000 to U+200A, U+2028, U+2029, U+202F,
    U+205F, U+3000 (the other Zs characters and LS, PS) and U+FEFF. *)
Definition is_ws3 (a b c : ascii) : bool :=
  let a := nat_of_ascii a in
  let b := nat_of_ascii b in
  let c := nat_of_ascii c in
  (Nat.eqb a 225 && Nat.eqb b 154 && Nat.eqb c 128) ||
  (Nat.eqb a 226 && Nat.eqb b 128 &&
     ((Nat.leb 128 c && Nat.leb c 138) || Nat.eqb c 168 || Nat.eqb c 169 || Nat.eqb c 175)) ||
  (Nat.eqb a 226 && Nat.eqb b 129 && Nat.eqb c 159) ||
  (Nat.eqb a 227 && Nat.eqb b 128 && Nat.eqb c 128) ||
  (Nat.eqb a 239 && Nat.eqb b 187 && Nat.eqb c 191).

(** Leading white space of a byte list. *)
Fixpoint drop_ws (l : list ascii) : list ascii :=
  match l with
  | c :: r =>
      if is_ws c then drop_ws r else
      match r with
      | c1 :: r1 =>
          if is_ws2 c c1 then drop_ws r1 else
          match r1 with
          | c2 :: r2 => if is_ws3 c c1 c2 then drop_ws r2 else l
          | [] => l
          end
      | [] => l
      end
  | [] => []
  end.

(** Leading white space of a reversed byte list (trailing white space of
    the string). *)
Fixpoint drop_ws_rev (l : list ascii) : list ascii :=
  match l with
  | c :: r =>
      if is_ws c then drop_ws_rev r else
      match r with
      | c1 :: r1 =>
          if is_ws2 c1 c then drop_ws_rev r1 else
          match r1 with
          | c2 :: r2 => if is_ws3 c2 c1 c then drop_ws_rev r2 else l
          | [] => l
          end
      | [] => l
      end
  | [] => []
  end.

Definition trim (l : list ascii) : list ascii := rev (drop_ws_rev (rev (drop_ws l))).

(** Value of a digit in a radix, if it is one. *)
Definition digit_val (radix : Z) (c : ascii) : option Z :=
  let n := Z.of_nat (nat_of_ascii c) in
  let v := if (48 <=? n) && (n <=? 57) then n - 48
           else if (97 <=? n) && (n <=? 102) then n - 87
           else if (65 <=? n) && (n <=? 70) then n - 55
           else radix in
  if v <? radix then Some v else None.

(** Longest run of digits: accumulated value, count, rest. *)
Fixpoint take_digits (radix : Z) (l : list ascii) (acc : Z) (n : Z)
  : Z * Z * list ascii :=
  match l with
  | c :: r =>
      match digit_val radix c with
      | Some d => take_digits radix r (acc * radix + d) (n + 1)
      | None => (acc, n, l)
      end
  | [] => (acc, n, [])
  end.

Definition take_sign (l : list ascii) : bool * list ascii :=
  match l with
  | "-"%char :: r => (true, r)
  | "+"%char :: r => (false, r)
  | _ => (false, l)
  end.

(** StrUnsignedDecimalLiteral other than Infinity: mantissa and exponent. *)
Definition parse_unsigned_decimal (l : list ascii) : option (Z * Z) :=
  let '(m1, n1, r1) := take_digits 10 l 0 0 in
  let '(m, n2, r2) :=
    match r1 with
    | "."%char :: r => take_digits 10 r m1 0
    | _ => (m1, 0, r1)
    end in
  if n1 + n2 =? 0 then None else
  match r2 with
  | [] => Some (m, - n2)
  | c :: r3 =>
      if (c =? "e")%char || (c =? "E")%char then
        let '(neg, r4) := take_sign r3 in
        let '(x, nx, r5) := take_digits 10 r4 0 0 in
        match r5 with
        | [] => if nx =? 0 then None
                else Some (m, (if neg then - x else x) - n2)
        | _ => None
        end
      else None
  end.

(** NonDecimalIntegerLiteral: 0x / 0o / 0b followed by digits only. *)
Definition parse_non_decimal (l : list ascii) : option Z :=
  match l with
  | "0"%char :: p :: r =>
      let radix :=
        if (p =? "x")%char || (p =? "X")%char then 16
        else if (p =? "o")%char || (p =? "O")%char then 8
        else if (p =? "b")%char || (p =? "B")%char then 2
        else 0 in
      if radix =? 0 then None else
      let '(v, n, rest) := take_digits radix r 0 0 in
      match rest with
      | [] => if n =? 0 then None else Some v
      | _ => None
      end
  | _ => None
  end.

(** [Number(s)] for a string [s]. *)
Definition str_to_number (s : string) : jsnum :=
  let l := trim (list_ascii_of_string s) in
  match l with
  | [] => JDec false 0 0
  | _ =>
      match parse_non_decimal l with
      | Some v => JDec false v 0
      | None =>
          let '(neg, r) := take_sign l in
          if String.eqb (string_of_list_ascii r) "Infinity" then JInf neg else
          match parse_unsigned_decimal r with
          | Some (m, e) => JDec neg m e
          | None => JNaN
          end
      end
  end.

(* ------------------------------------------------------------------ *)
(** ** Upsell configuration: [findGridSection], [getUpsellVariantIdFromSection] *)

(** A [data-section="custom-product-grid"] element, seen through the one
    attribute the script reads. *)
Record section : Type := { data_upsell_variant : option string }.

(** [el.closest(sel) || document.querySelector(sel)]. *)
Definition findGridSection (closest first_in_document : option section)
  : option section :=
  match closest with
  | Some s => Some s
  | None => first_in_document
  end.

(** [Number(v) || null]: [Number] on a string never throws, so the
    [catch] branch is dead. *)
Definition getUpsellVariantIdFromSection (closest first_in_document : option section)
  : option jsnum :=
  match findGridSection closest first_in_document with
  | None => None
  | Some s =>
      match data_upsell_variant s with
      | None => None
      | Some v =>
          if negb (js_truthy_str (Some v)) then None else
          let n := str_to_number v in
          if js_truthy_num n then Some n else None
      end
  end.

(* ------------------------------------------------------------------ *)
(** ** Products, variants and the variant resolver *)

(** A value the code reads from an option slot of a variant: a string,
    [null] (a slot the product JSON leaves unset) or [undefined] (a
    property the JSON does not have). *)
Inductive jsval : Type :=
| JStr (s : string)
| JNull
| JUndef.

Definition js_truthy_val (v : jsval) : bool :=
  match v with
  | JStr s => js_truthy_str (Some s)
  | _ => false
  end.

(** [===] on such values (also SameValueZero, the equality of [Set]). *)
Definition jsval_eqb (a b : jsval) : bool :=
  match a, b with
  | JStr x, JStr y => String.eqb x y
  | JNull, JNull => true
  | JUndef, JUndef => true
  | _, _ => false
  end.

(** [String(v)]. *)
Definition to_js_string (v : jsval) : string :=
  match v with
  | JStr s => s
  | JNull => "null"
  | JUndef => "undefined"
  end.

Record variant : Type := {
  v_id : Z;
  v_title : option string;
  v_price : Z;
  v_available : bool;
  option1 : jsval;
  option2 : jsval;
  option3 : jsval
}.

Record product : Type := {
  p_title : string;
  options : list string;
  variants : list variant
}.

(** [v['option' + k]]: only slots 1 to 3 exist. *)
Definition opt_slot (v : variant) (k : nat) : jsval :=
  match k with
  | 1%nat => option1 v
  | 2%nat => option2 v
  | 3%nat => option3 v
  | _ => JUndef
  end.

(** The property names of [Object.prototype] (ECMAScript with Annex B). *)
Definition object_prototype_keys : list string :=
  ["constructor"; "__defineGetter__"; "__defineSetter__"; "hasOwnProperty";
   "__lookupGetter__"; "__lookupSetter__"; "isPrototypeOf";
   "propertyIsEnumerable"; "toString"; "valueOf"; "__proto__"; "toLocaleString"].

Definition is_proto_key (k : string) : bool :=
  existsb (String.eqb k) object_prototype_keys.

(** What reading a property of [selections] gives: a value the code
    wrote, or the inherited [Object.prototype[k]] (a function, or
    [Object.prototype] itself for [__proto__]), named by [k]. *)
Inductive prop_val : Type :=
| PVal (v : jsval)
| PInherited (k : string).

Definition prop_truthy (p : prop_val) : bool :=
  match p with
  | PVal v => js_truthy_val v
  | PInherited _ => true
  end.

(** [got === want] for a slot value [got]. *)
Definition prop_eqb (got : jsval) (want : prop_val) : bool :=
  match want with
  | PVal w => jsval_eqb got w
  | PInherited _ => false
  end.

(** A plain object created by [{}]: its own string-keyed properties, and
    whether its prototype is still [Object.prototype] (assigning [null]
    to [__proto__] cuts it). *)
Record jsobject : Type := {
  own : list (string * jsval);
  has_proto : bool
}.

Definition empty_object : jsobject := {| own := []; has_proto := true |}.

Fixpoint own_get (o : list (string * jsval)) (k : string) : option jsval :=
  match o with
  | [] => None
  | (k', v) :: r => if String.eqb k k' then Some v else own_get r k
  end.

(** Overwrite an own property in place, or add it at the end. *)
Fixpoint own_set (o : list (string * jsval)) (k : string) (v : jsval)
  : list (string * jsval) :=
  match o with
  | [] => [(k, v)]
  | (k', v') :: r => if String.eqb k k' then (k', v) :: r else (k', v') :: own_set r k v
  end.

(** [selections[k]]: an own property, else an inherited one, else
    [undefined]. *)
Definition sel_get (sel : jsobject) (k : string) : prop_val :=
  match own_get (own sel) k with
  | Some v => PVal v
  | None => if has_proto sel && is_proto_key k then PInherited k else PVal JUndef
  end.

(** [selections[k] = v]. Without an own property [k], assigning to
    [__proto__] runs the inherited setter, which sets the prototype for
    [null] and ignores any other primitive; every other key gets an own
    data property (the inherited ones are writable). *)
Definition sel_set (sel : jsobject) (k : string) (v : jsval) : jsobject :=
  match own_get (own sel) k with
  | None =>
      if has_proto sel && String.eqb k "__proto__" then
        match v with
        | JNull => {| own := own sel; has_proto := false |}
        | _ => sel
        end
      else {| own := own_set (own sel) k v; has_proto := has_proto sel |}
  | Some _ => {| own := own_set (own sel) k v; has_proto := has_proto sel |}
  end.

(** [Array.prototype.every] with the element index. *)
Fixpoint every_idx {A} (f : nat -> A -> bool) (l : list A) (i : nat) : bool :=
  match l with
  | [] => true
  | x :: r => f i x && every_idx f r (S i)
  end.

(** The callback of [product.options.every] in [findVariant]. *)
Definition option_ok (sel : jsobject) (v : variant) (idx : nat) (optName : string) : bool :=
  let want := sel_get sel optName in
  if negb (prop_truthy want) then true
  else prop_eqb (opt_slot v (idx + 1)) want.

Definition variant_matches (p : product) (sel : jsobject) (v : variant) : bool :=
  every_idx (option_ok sel v) (options p) 0.

Definition findVariant (p : product) (sel : jsobject) : option variant :=
  find (variant_matches p sel) (variants p).

(* ------------------------------------------------------------------ *)
(** ** Picker builder: [buildVariantPickers] *)

(** [(l).forEach(function (x, idx) ...)] visits the pairs [(idx, x)]. *)
Fixpoint enum_from {A} (i : nat) (l : list A) : list (nat * A) :=
  match l with
  | [] => []
  | x :: r => (i, x) :: enum_from (S i) r
  end.

(** [Array.from(new Set(xs))]: first occurrences, in order. *)
Definition distinct (xs : list jsval) : list jsval :=
  fold_left (fun acc x => if existsb (jsval_eqb x) acc then acc else (acc ++ [x])%list) xs [].

(** The rendered option buttons in document order, as
    [(data-opt, value captured by the click handler)]; [setAttribute]
    stores [String(val)] as [data-val]. *)
Definition buttons (p : product) : list (string * jsval) :=
  flat_map (fun '(optIndex, optName) =>
              map (fun val => (optName, val))
                  (distinct (map (fun v => opt_slot v (optIndex + 1)) (variants p))))
           (enum_from 0 (options p)).

(** A string as a selector built from [CSS.escape] reads it back: the
    escape turns NUL into U+FFFD and leaves other characters readable,
    and parsing the selector turns lone surrogates (WTF-8 ED A0..BF xx)
    into U+FFFD. *)
Fixpoint css_read_back (l : list ascii) : list ascii :=
  match l with
  | c :: r =>
      if Nat.eqb (nat_of_ascii c) 0 then
        ascii_of_nat 239 :: ascii_of_nat 191 :: ascii_of_nat 189 :: css_read_back r
      else if Nat.eqb (nat_of_ascii c) 237 then
        match r with
        | c1 :: c2 :: r2 =>
            if Nat.leb 160 (nat_of_ascii c1) && Nat.leb (nat_of_ascii c1) 191 then
              ascii_of_nat 239 :: ascii_of_nat 191 :: ascii_of_nat 189 :: css_read_back r2
            else c :: css_read_back r
        | _ => c :: css_read_back r
        end
      else c :: css_read_back r
  | [] => []
  end.

Definition css_value (s : string) : string :=
  string_of_list_ascii (css_read_back (list_ascii_of_string s)).

(** [wrap.querySelector('.cqv-opt[data-opt="' + CSS.escape(optName) +
    '"][data-val="' + CSS.escape(val) + '"]')]: the first button whose
    attributes equal the values the selector reads back. *)
Definition query_button (btns : list (string * jsval)) (optName : string)
  (val : jsval) : option (string * jsval) :=
  find (fun '(n, v) => String.eqb n (css_value optName) &&
                       String.eqb (to_js_string v) (css_value (to_js_string val))) btns.

(** What the modal shows: the [.cqv-title] text, the cents passed to
    [formatMoney] for [.cqv-price] ([None] while still empty), and
    [modal.dataset.variantId]. *)
Record display : Type := {
  d_title : string;
  d_price : option Z;
  d_variantId : option Z
}.

Definition variant_heading (p : product) (v : variant) : string :=
  p_title p ++
  match v_title v with
  | Some t => if js_truthy_str (Some t) then " — " ++ t else ""
  | None => ""
  end.

(** The click handler of the button [(optName, val)]. *)
Definition click (p : product) (st : jsobject * display) (b : string * jsval)
  : jsobject * display :=
  let '(sel, d) := st in
  let '(optName, val) := b in
  let sel' := sel_set sel optName val in
  match findVariant p sel' with
  | Some v =>
      (sel', {| d_title := variant_heading p v;
                d_price := Some (v_price v);
                d_variantId := Some (v_id v) |})
  | None => (sel', d)
  end.

(** [product.variants.find(v => v.available) || product.variants[0]]. *)
Definition initial_variant (p : product) : option variant :=
  match find v_available (variants p) with
  | Some v => Some v
  | None => hd_error (variants p)
  end.

(** One pass of the pre-selection loop. *)
Definition preseed_step (p : product) (iv : variant) (st : jsobject * display)
  (io : nat * string) : jsobject * display :=
  let '(sel, d) := st in
  let '(idx, optName) := io in
  let val := opt_slot iv (idx + 1) in
  let sel := sel_set sel optName val in
  match query_button (buttons p) optName val with
  | Some btn => click p (sel, d) btn
  | None => (sel, d)
  end.

(** The pre-selection part of [buildVariantPickers], from the display
    [d] the modal shows before the pickers are built. *)
Definition preseed (p : product) (d : display) : jsobject * display :=
  match initial_variant p with
  | None => (empty_object, d)
  | Some iv =>
      let '(sel, d1) := fold_left (preseed_step p iv) (enum_from 0 (options p)) (empty_object, d) in
      (sel, {| d_title := d_title d1;
               d_price := Some (v_price iv);
               d_variantId := Some (v_id iv) |})
  end.

(** The shopper clicking, option by option, the button of each value of
    [iv], from the same starting display. *)
Definition manual_clicks (p : product) (iv : variant) (d : display) : jsobject * display :=
  fold_left (fun st '(idx, optName) => click p st (optName, opt_slot iv (idx + 1)))
            (enum_from 0 (options p)) (empty_object, d).

(* ------------------------------------------------------------------ *)
(** ** Completions: a value or a thrown exception *)

Inductive res (A : Type) : Type :=
| Ret (a : A)
| Exc.
Arguments Ret {A} a.
Arguments Exc {A}.

(* ------------------------------------------------------------------ *)
(** ** Money formatter: [formatMoney] *)

Fixpoint uint_to_string (u : Decimal.uint) : string :=
  match u with
  | Decimal.Nil => ""
  | Decimal.D0 r => String "0" (uint_to_string r)
  | Decimal.D1 r => String "1" (uint_to_string r)
  | Decimal.D2 r => String "2" (uint_to_string r)
  | Decimal.D3 r => String "3" (uint_to_string r)
  | Decimal.D4 r => String "4" (uint_to_string r)
  | Decimal.D5 r => String "5" (uint_to_string r)
  | Decimal.D6 r => String "6" (uint_to_string r)
  | Decimal.D7 r => String "7" (uint_to_string r)
  | Decimal.D8 r => String "8" (uint_to_string r)
  | Decimal.D9 r => String "9" (uint_to_string r)
  end.

(** Decimal digits of a non-negative integer. *)
Definition digits (n : Z) : string := uint_to_string (N.to_uint (Z.to_N n)).

Fixpoint zeros (k : nat) : string :=
  match k with
  | O => ""
  | S k' => String "0" (zeros k')
  end.

Definition pad_left (k : nat) (s : string) : string :=
  zeros (k - String.length s) ++ s.

(** A signed decimal numeral with [f] fraction digits of a scaled value. *)
Definition fixed_numeral (neg : bool) (n f : Z) : string :=
  (if neg then "-" else "") ++
  if f =? 0 then digits n
  else digits (n / 10 ^ f) ++ "." ++ pad_left (Z.to_nat f) (digits (n mod 10 ^ f)).

(** IEEE-754 binary64 values: a finite [(-1)^neg * m * 2^e] ([m >= 0]),
    an infinity or NaN. *)
Inductive dbl : Type :=
| DFin (neg : bool) (m e : Z)
| DInf (neg : bool)
| DNaN.

(** [n / d] rounded to an integer, ties to even ([n >= 0], [d > 0]). *)
Definition round_half_even (n d : Z) : Z :=
  let q := n / d in
  let r := n mod d in
  if (d <? 2 * r) || ((2 * r =? d) && Z.odd q) then q + 1 else q.

(** [n / d] rounded to an integer, ties upward ([n >= 0], [d > 0]). *)
Definition round_half_up (n d : Z) : Z := (2 * n + d) / (2 * d).

(** [num / den >= 2^l] for positive [num], [den]. *)
Definition ge_pow2 (num den l : Z) : bool :=
  if 0 <=? l then den * 2 ^ l <=? num else den <=? num * 2 ^ (- l).

(** [floor (log2 (num / den))]. *)
Definition flog2 (num den : Z) : Z :=
  let l := Z.log2 num - Z.log2 den in
  if ge_pow2 num den l then l else l - 1.

(** The double nearest to [(-1)^neg * num / den] (round to nearest, ties
    to even; 53-bit significands, subnormals down to 2^-1074, overflow
    to an infinity). *)
Definition round_to_double (neg : bool) (num den : Z) : dbl :=
  if num =? 0 then DFin neg 0 0 else
  let e := Z.max (-1074) (flog2 num den - 52) in
  let m := if 0 <=? e then round_half_even num (den * 2 ^ e)
           else round_half_even (num * 2 ^ (- e)) den in
  if (971 <? e) || ((e =? 971) && (m =? 2 ^ 53)) then DInf neg else DFin neg m e.

(** A JSON integer, as the double [JSON.parse] gives. *)
Definition dbl_of_Z (c : Z) : dbl := round_to_double (c <? 0) (Z.abs c) 1.

(** The magnitude [m * 2^e] as a fraction [(num, den)]. *)
Definition dbl_abs_q (m e : Z) : Z * Z :=
  if 0 <=? e then (m * 2 ^ e, 1) else (m, 2 ^ (- e)).

(** [x / 100] on doubles. *)
Definition div100 (x : dbl) : dbl :=
  match x with
  | DFin neg m e => let '(a, b) := dbl_abs_q m e in round_to_double neg a (100 * b)
  | DInf neg => DInf neg
  | DNaN => DNaN
  end.

(** [10^p] as a fraction. *)
Definition pow10_q (p : Z) : Z * Z :=
  if 0 <=? p then (10 ^ p, 1) else (1, 10 ^ (- p)).

(** The [n] with [10^(n-1) <= m * 2^e < 10^n], for [m > 0]: the first
    candidate around [log10 (m * 2^e)] that [m * 2^e] is below. *)
Definition dec_exponent (m e : Z) : Z :=
  let '(a, b) := dbl_abs_q m e in
  let n0 := (Z.log2 m + e) * 30103 / 100000 in
  match find (fun n => let '(c, d) := pow10_q n in a * d <? c * b)
             [n0 - 2; n0 - 1; n0; n0 + 1; n0 + 2; n0 + 3] with
  | Some n => n
  | None => n0 + 4
  end.

(** Whether [s * 10^p] rounds to the positive double [m * 2^e]. *)
Definition rounds_back (m e s p : Z) : bool :=
  let '(c, d) := pow10_q p in
  match round_to_double false (s * c) d with
  | DFin _ m' e' =>
      let '(a, b) := dbl_abs_q m e in
      let '(a', b') := dbl_abs_q m' e' in
      a * b' =? a' * b
  | _ => false
  end.

(** Number::toString, step 5 (ECMA-262), for [x = m * 2^e > 0]: the
    digits [s], their count [k] and the exponent [n] with
    [s * 10^(n-k)] rounding to [x] and [k] as small as possible; among
    those [s], the one closest to [x], the even one on a tie (the
    choice Note 2 asks for, which engines make). Only the two integers
    around [x / 10^(n-k)] can be closest, and 17 digits always suffice. *)
Definition shortest_digits (m e : Z) : Z * Z * Z :=
  let n := dec_exponent m e in
  let '(a, b) := dbl_abs_q m e in
  let fix go (fuel : nat) (k : Z) : Z * Z * Z :=
    match fuel with
    | O => (m, k, n)
    | S fuel' =>
        let '(c, d) := pow10_q (n - k) in
        let num := a * d in
        let den := b * c in
        let lo := num / den in
        let hi := lo + 1 in
        let lo_ok := (10 ^ (k - 1) <=? lo) && rounds_back m e lo (n - k) in
        let hi_ok := rounds_back m e hi (n - k) in
        let s :=
          if lo_ok && hi_ok then
            let dl := num - lo * den in
            let dh := hi * den - num in
            if dl <? dh then Some lo
            else if dh <? dl then Some hi
            else if Z.even lo then Some lo else Some hi
          else if lo_ok then Some lo
          else if hi_ok then Some hi
          else None in
        match s with
        | Some s =>
            if s =? 10 ^ k then (10 ^ (k - 1), k, n + 1) else (s, k, n)
        | None => go fuel' (k + 1)
        end
    end in
  go 17%nat 1.

(** Number::toString, steps 6 to 12, for [x = m * 2^e > 0]. *)
Definition number_to_string_pos (m e : Z) : string :=
  let '(s, k, n) := shortest_digits m e in
  let ds := digits s in
  if (k <=? n) && (n <=? 21) then ds ++ zeros (Z.to_nat (n - k))
  else if (0 <? n) && (n <=? 21) then
    substring 0 (Z.to_nat n) ds ++ "." ++ substring (Z.to_nat n) (Z.to_nat (k - n)) ds
  else if (-6 <? n) && (n <=? 0) then "0." ++ zeros (Z.to_nat (- n)) ++ ds
  else
    let ex := (if n - 1 <? 0 then "-" else "+") ++ digits (Z.abs (n - 1)) in
    if k =? 1 then ds ++ "e" ++ ex
    else substring 0 1 ds ++ "." ++ substring 1 (Z.to_nat (k - 1)) ds ++ "e" ++ ex.

(** [Number::toString(x, 10)]. *)
Definition number_to_string (x : dbl) : string :=
  match x with
  | DNaN => "NaN"
  | DInf neg => if neg then "-Infinity" else "Infinity"
  | DFin neg m e =>
      if m =? 0 then "0" else (if neg then "-" else "") ++ number_to_string_pos m e
  end.

(** [x.toFixed(f)] (Number.prototype.toFixed): a RangeError outside
    [0..100]; [Number::toString] for a non-finite [x] or [|x| >= 10^21];
    otherwise the integer [n] nearest to [|x| * 10^f], the larger one on a
    tie, written with [f] fraction digits. *)
Definition toFixed (x : dbl) (f : Z) : res string :=
  if (f <? 0) || (100 <? f) then Exc else
  match x with
  | DFin neg m e =>
      let neg := neg && negb (m =? 0) in
      let '(a, b) := dbl_abs_q m e in
      if 10 ^ 21 * b <=? a then
        Ret ((if neg then "-" else "") ++ number_to_string (DFin false m e))
      else Ret (fixed_numeral neg (round_half_up (a * 10 ^ f) b) f)
  | _ => Ret (number_to_string x)
  end.

(** What [formatMoney] returns: the fallback string, or the string of an
    [Intl.NumberFormat] currency formatter, kept as the currency code and
    the amount numeral it renders (symbol placement, sign pattern and
    grouping depend on the host locale and are left abstract). *)
Inductive shown : Type :=
| Fixed (s : string)
| Localized (currency : string) (amount : string).

Definition shown_amount (s : shown) : string :=
  match s with
  | Fixed a => a
  | Localized _ a => a
  end.

Definition is_ascii_letter (c : ascii) : bool :=
  let n := nat_of_ascii c in
  (Nat.leb 65 n && Nat.leb n 90) || (Nat.leb 97 n && Nat.leb n 122).

(** The ASCII upper-casing ECMA-402 applies to currency codes. *)
Fixpoint toUpperCase (s : string) : string :=
  match s with
  | EmptyString => EmptyString
  | String c r =>
      let n := nat_of_ascii c in
      String (if Nat.leb 97 n && Nat.leb n 122 then ascii_of_nat (n - 32) else c)
             (toUpperCase r)
  end.

(** ECMA-402 CurrencyDigits: the ISO 4217 minor unit, 2 by default. *)
Definition currency_digits (code : string) : Z :=
  if existsb (String.eqb code)
       ["BIF"; "CLP"; "DJF"; "GNF"; "ISK"; "JPY"; "KMF"; "KRW"; "PYG"; "RWF";
        "UGX"; "UYI"; "VND"; "VUV"; "XAF"; "XOF"; "XPF"] then 0
  else if existsb (String.eqb code) ["BHD"; "IQD"; "JOD"; "KWD"; "LYD"; "OMR"; "TND"] then 3
  else if existsb (String.eqb code) ["CLF"; "UYW"] then 4
  else 2.

(** ECMA-402 ToIntlMathematicalValue of a Number: the exact value of the
    decimal literal [Number::toString(x)] ([-0] kept apart). *)
Definition intl_mv (x : dbl) : jsnum :=
  match x with
  | DFin true 0 _ => JDec true 0 0
  | _ => str_to_number (number_to_string x)
  end.

(** The amount with exactly [f] fraction digits, halves rounded away from
    zero (the default roundingMode halfExpand). *)
Definition intl_amount (mv : jsnum) (f : Z) : string :=
  match mv with
  | JNaN => "NaN"
  | JInf neg => (if neg then "-" else "") ++ "∞"
  | JDec neg m e =>
      fixed_numeral neg
        (if 0 <=? e + f then m * 10 ^ (e + f) else round_half_up m (10 ^ (- (e + f)))) f
  end.

(** [new Intl.NumberFormat(undefined, {style: 'currency', currency}).format(x)]
    (ECMA-402): a TypeError without a currency, a RangeError for a code
    that is not three ASCII letters; otherwise the amount is shown with
    the currency's number of fraction digits. *)
Definition intl_currency_format (currency : option string) (x : dbl) : res shown :=
  match currency with
  | None => Exc
  | Some c =>
      if negb (Nat.eqb (String.length c) 3 &&
               forallb is_ascii_letter (list_ascii_of_string c)) then Exc
      else
        let code := toUpperCase c in
        Ret (Localized code (intl_amount (intl_mv x) (currency_digits code)))
  end.

(** [formatMoney(cents)], with [Shopify.currency.active] as [active]
    ([None] when [window.Shopify] or [Shopify.currency] is missing) and
    [cents] the JSON price. *)
Definition formatMoney (active : option string) (cents : Z) : res shown :=
  let currency := if js_truthy_str active then active else None in
  let x := div100 (dbl_of_Z cents) in
  match intl_currency_format currency x with
  | Ret s => Ret s
  | Exc =>
      match toFixed x 2 with
      | Ret s => Ret (Fixed s)
      | Exc => Exc
      end
  end.

(* ------------------------------------------------------------------ *)
(** ** Effects of the event handlers *)

(** Outcome of one [fetch]: a success status with a JSON body, a
    non-success status, or a rejected promise (transport error or a body
    that is not JSON). *)
Inductive net : Type :=
| NetOk
| NetBad
| NetErr.

(** Effects visible to the shopper, the network or the console. *)
Inductive event : Type :=
| EFetchProduct (handle : string)            (* GET /products/{handle}.js *)
| EPost (id quantity : jsnum)                (* POST /cart/add.js *)
| EAlert (s : string)                        (* alert(...) *)
| EMsg (s : string)                          (* .cqv-msg textContent *)
| EDisabled (b : bool)                       (* addBtn.disabled *)
| EWarn                                      (* console.warn *)
| EError                                     (* console.error *)
| ENavigate.                                 (* window.location.href = '/cart' *)

Record io_state : Type := {
  pending : list net;     (* outcomes of the next network calls *)
  trace : list event
}.

(** A state monad with exceptions, for the [async] handlers: [await]
    is sequencing, a rejected promise is [Exc]. *)
Definition M (A : Type) : Type := io_state -> res A * io_state.

Definition ret {A} (a : A) : M A := fun s => (Ret a, s).

Definition bind {A B} (m : M A) (k : A -> M B) : M B :=
  fun s => match m s with
           | (Ret a, s') => k a s'
           | (Exc, s') => (Exc, s')
           end.

Definition throw {A} : M A := fun s => (Exc, s).

Definition try_catch {A} (m : M A) (h : M A) : M A :=
  fun s => match m s with
           | (Ret a, s') => (Ret a, s')
           | (Exc, s') => h s'
           end.

Notation "x <- m ;; k" := (bind m (fun x => k))
  (at level 61, m at next level, right associativity).
Notation "m ;; k" := (bind m (fun _ => k)) (at level 61, right associativity).

Definition emit (e : event) : M unit :=
  fun s => (Ret tt, {| pending := pending s; trace := trace s ++ [e] |}).

(** The next network outcome (a rejection once the oracle is exhausted). *)
Definition await_net : M net :=
  fun s => match pending s with
           | [] => (Ret NetErr, s)
           | o :: r => (Ret o, {| pending := r; trace := trace s |})
           end.

Definition run {A} (m : M A) (oracle : list net) : res A * io_state :=
  m {| pending := oracle; trace := [] |}.

(* ------------------------------------------------------------------ *)
(** ** Cart gateway: [addToCart] *)

(** [variantId] and [quantity] arrive already coerced by [Number]. *)
Definition addToCart (variantId quantity : jsnum) : M unit :=
  emit (EPost variantId quantity) ;;
  o <- await_net ;;
  match o with
  | NetOk => ret tt
  | _ => throw
  end.

(* ------------------------------------------------------------------ *)
(** ** The add button: [addBtn.onclick] *)

Section QuickView.

(** [String.prototype.toLowerCase], left abstract: the Unicode default
    case conversion (with its context-dependent final sigma) is not
    embedded, and nothing below depends on which mapping it is. *)
Variable toLowerCase : string -> string.

(** [[chosenVariant.option1, option2, option3].filter(Boolean)
    .map(o => o.toString().toLowerCase())]. *)
Definition option_values (chosen : option variant) : list string :=
  match chosen with
  | None => []
  | Some cv =>
      flat_map (fun o => match o with
                         | JStr s => if js_truthy_str (Some s) then [toLowerCase s] else []
                         | _ => []
                         end)
               [option1 cv; option2 cv; option3 cv]
  end.

(** [Number(modal.querySelector('.cqv-qty').value || 1)], where
    [qty_value] is what the [value] getter of the [type="number"] field
    returns (the empty string or a valid floating-point number). *)
Definition quantity_of (qty_value : string) : jsnum :=
  if js_truthy_str (Some qty_value) then str_to_number qty_value else num_of_Z 1.

(** The handler installed on [.cqv-add] for product [p]; [vid] is
    [modal.dataset.variantId], [qty_value] the quantity input's value,
    and [closest] / [first_in_document] the grid sections seen from the
    quick-view trigger. *)
Definition on_add_click (p : product) (vid : option Z) (qty_value : string)
  (closest first_in_document : option section) : M unit :=
  emit (EDisabled true) ;;
  emit (EMsg "Adding...") ;;
  let qty := quantity_of qty_value in
  match vid with
  | None =>
      emit (EMsg "Please select variant") ;;
      emit (EDisabled false)
  | Some id =>
      try_catch
        (addToCart (num_of_Z id) qty ;;
         let chosenVariant := find (fun v => Z.eqb (v_id v) id) (variants p) in
         let optionValues := option_values chosenVariant in
         let hasBlack := existsb (fun v => includes v "black") optionValues in
         let hasMedium := existsb (fun v => includes v "medium") optionValues in
         let upsellVariantId := getUpsellVariantIdFromSection closest first_in_document in
         (match upsellVariantId with
          | Some u =>
              if hasBlack && hasMedium then
                try_catch (addToCart u (num_of_Z 1)) (emit EWarn)
              else ret tt
          | None => ret tt
          end) ;;
         emit ENavigate)
        (emit EError ;;
         emit (EMsg "Could not add to cart. Try again.") ;;
         emit (EDisabled false))
  end.

(* ------------------------------------------------------------------ *)
(** ** Modal controller and dispatcher *)

(** The page: the [#custom-quickview] node ([None] before [ensureModal],
    otherwise whether it has the [open] class) and whether the root
    element has the [no-scroll] class. *)
Record page : Type := {
  modal : option bool;
  no_scroll : bool
}.

Definition initial_page : page := {| modal := None; no_scroll := false |}.

Definition ensureModal (pg : page) : page :=
  match modal pg with
  | Some _ => pg
  | None => {| modal := Some false; no_scroll := no_scroll pg |}
  end.

Definition openModal (pg : page) : page := {| modal := Some true; no_scroll := true |}.

Definition closeModal (pg : page) : page := {| modal := Some false; no_scroll := false |}.

(** The click target, through [closest('[data-quick]')] (with its
    [data-handle]) and [closest('[data-cqv-close]')]. *)
Inductive target : Type :=
| TQuick (handle : option string)
| TClose
| TOther.

(** How the product load of a quick-view click ends: the fetch or its
    JSON rejects (before [ensureModal]); rendering throws after
    [ensureModal]; or everything succeeds up to [openModal]. *)
Inductive load : Type :=
| LoadFail
| RenderFail
| Loaded.

(** The delegated [click] listener. *)
Definition on_click (pg : page) (t : target) (ld : load) : page * list event :=
  match t with
  | TQuick h =>
      if negb (js_truthy_str h) then (pg, [EAlert "Product handle missing"]) else
      let handle := attr_of h in
      match ld with
      | LoadFail => (pg, [EFetchProduct handle; EError; EAlert "Unable to load product."])
      | RenderFail =>
          (ensureModal pg, [EFetchProduct handle; EError; EAlert "Unable to load product."])
      | Loaded => (openModal (ensureModal pg), [EFetchProduct handle])
      end
  | TClose =>
      match modal pg with
      | Some _ => (closeModal pg, [])
      | None => (pg, [])
      end
  | TOther => (pg, [])
  end.

(** The [keydown] listener. *)
Definition on_keydown (pg : page) (key : string) : page :=
  if String.eqb key "Escape" then
    match modal pg with
    | Some true => closeModal pg
    | _ => pg
    end
  else pg.

Inductive ui_event : Type :=
| Click (t : target) (ld : load)
| KeyDown (key : string).

Definition ui_step (pg : page) (e : ui_event) : page :=
  match e with
  | Click t ld => fst (on_click pg t ld)
  | KeyDown k => on_keydown pg k
  end.

Definition ui_run (pg : page) (es : list ui_event) : page := fold_left ui_step es pg.

(* ------------------------------------------------------------------ *)
(** ** Quick-view content: the body of the [data-quick] branch *)

(** [description.replace(/<\/?[^>]+(>|$)/g, '')]. At a ['<'] the pattern
    matches exactly when a character other than ['>'] follows (['/'] is
    also a [[^>]] character, and the greedy [[^>]+] runs to the first
    ['>'] or to the end of input, where [$] matches); the match then
    extends through that ['>'] or to the end. [in_tag] is true while
    inside such a match. *)
Fixpoint strip_tags_from (s : string) (in_tag : bool) : string :=
  match s with
  | EmptyString => EmptyString
  | String c r =>
      if in_tag then
        if Ascii.eqb c ">" then strip_tags_from r false else strip_tags_from r true
      else if Ascii.eqb c "<" then
        match r with
        | String d _ => if Ascii.eqb d ">" then String c (strip_tags_from r false)
                        else strip_tags_from r true
        | EmptyString => String c EmptyString
        end
      else String c (strip_tags_from r false)
  end.

Definition strip_tags (s : string) : string := strip_tags_from s false.

(** The product JSON fields read when filling the modal. *)
Record product_media : Type := {
  description : option string;
  images : option (list string);
  featured_image : option string
}.

(** [.cqv-desc] text. *)
Definition description_text (m : product_media) : string :=
  if js_truthy_str (description m) then strip_tags (attr_of (description m)) else "".

(** [imageUrl || ''] for the [img] source. *)
Definition image_src (m : product_media) : string :=
  let imageUrl :=
    match images m with
    | Some (i0 :: _) => Some i0
    | _ => featured_image m
    end in
  if js_truthy_str imageUrl then attr_of imageUrl else "".

(** The reused modal after a successful load of [p]: [.cqv-title] is set
    to the product title, then [buildVariantPickers] runs; the price and
    [dataset.variantId] are not reset and keep what [d] had. *)
Definition load_product (p : product) (d : display) : jsobject * display :=
  preseed p {| d_title := p_title p; d_price := d_price d; d_variantId := d_variantId d |}.

(** The state of [addBtn.disabled] after a trace (its last assignment). *)
Fixpoint last_disabled (tr : list event) (cur : bool) : bool :=
  match tr with
  | [] => cur
  | EDisabled b :: r => last_disabled r b
  | _ :: r => last_disabled r cur
  end.

(* ================================================================== *)
(** * Properties *)

Open Scope list_scope.

(* ------------------------------------------------------------------ *)
(** ** Generic facts *)



Lemma every_idx_spec {A} (f : nat -> A -> bool) (l : list A) (i : nat) :
  every_idx f l i = true <->
  forall j x, nth_error l j = Some x -> f (i + j)%nat x = true.
Proof.
  revert i; induction l as [|a l IH]; intros i; simpl.
  - split; [intros _ j x H; destruct j; discriminate | reflexivity].
  - rewrite andb_true_iff, IH. split.
    + intros [Ha Hl] j x Hj. destruct j as [|j]; simpl in Hj.
      * inversion Hj; subst. rewrite Nat.add_0_r. exact Ha.
      * rewrite <- Nat.add_succ_comm. apply Hl. exact Hj.
    + intros H. split.
      * rewrite <- (Nat.add_0_r i). apply H. reflexivity.
      * intros j x Hj. rewrite Nat.add_succ_comm. apply H. exact Hj.
Qed.

Lemma js_truthy_str_some (o : option string) :
  js_truthy_str o = true <-> exists w, o = Some w /\ w <> "".
Proof.
  destruct o as [s|]; simpl.
  - rewrite negb_true_iff, String.eqb_neq. split.
    + intros H; exists s; auto.
    + intros (w & E & H); inversion E; subst; exact H.
  - split; [discriminate | intros (w & E & _); discriminate].
Qed.

(* ------------------------------------------------------------------ *)
(** ** Variant resolver *)

Lemma jsval_eqb_eq (a b : jsval) : jsval_eqb a b = true <-> a = b.
Proof.
  destruct a, b; simpl; try (split; congruence).
  rewrite String.eqb_eq. split; congruence.
Qed.




Section NoPrototypeNames.

Variable p : product.
Hypothesis no_proto : forall n, In n (options p) -> is_proto_key n = false.



End NoPrototypeNames.







(* ------------------------------------------------------------------ *)
(** ** Substrings and case folding *)

Lemma starts_with_spec (p s : string) :
  starts_with p s = true <-> exists b, s = (p ++ b)%string.
Proof.
  revert s; induction p as [|c p IH]; intros s; simpl.
  - split; [intros _; exists s; reflexivity | reflexivity].
  - destruct s as [|d s].
    + split; [discriminate | intros (b & E); discriminate].
    + rewrite andb_true_iff, IH, Ascii.eqb_eq. split.
      * intros [-> (b & ->)]. exists b; reflexivity.
      * intros (b & E). inversion E; subst. eauto.
Qed.

Lemma includes_spec (s p : string) :
  includes s p = true <-> exists a b, s = (a ++ p ++ b)%string.
Proof.
  induction s as [|c s IH]; simpl; rewrite orb_true_iff, starts_with_spec.
  - split.
    + intros [(b & E) | H]; [exists ""%string, b; exact E | discriminate].
    + intros (a & b & E). destruct a; [left; exists b; exact E | discriminate].
  - rewrite IH. split.
    + intros [(b & E) | (a & b & E)].
      * exists ""%string, b; exact E.
      * exists (String c a), b. rewrite E. reflexivity.
    + intros (a & b & E). destruct a as [|d a].
      * left. exists b. exact E.
      * right. inversion E; subst. eauto.
Qed.

(* ------------------------------------------------------------------ *)
(** ** The add handler *)

(** The POST bodies [{id, quantity}] of a trace, in order. *)
Definition post_calls (tr : list event) : list (jsnum * jsnum) :=
  flat_map (fun e => match e with EPost i q => [(i, q)] | _ => [] end) tr.

(** The upsell condition of the handler, as the code computes it. *)
Definition upsell_due (p : product) (id : Z) (closest first_in_document : option section)
  : bool :=
  let optionValues := option_values (find (fun v => Z.eqb (v_id v) id) (variants p)) in
  match getUpsellVariantIdFromSection closest first_in_document with
  | Some _ => existsb (fun v => includes v "black") optionValues &&
              existsb (fun v => includes v "medium") optionValues
  | None => false
  end.

Lemma on_add_click_ok p id qty c f rest :
  run (on_add_click p (Some id) qty c f) (NetOk :: rest) =
  match getUpsellVariantIdFromSection c f with
  | Some u =>
      if upsell_due p id c f then
        (Ret tt, {| pending := tl rest;
                    trace := [EDisabled true; EMsg "Adding...";
                              EPost (num_of_Z id) (quantity_of qty);
                              EPost u (num_of_Z 1)] ++
                             (match hd NetErr rest with NetOk => [] | _ => [EWarn] end) ++
                             [ENavigate] |})
      else
        (Ret tt, {| pending := rest;
                    trace := [EDisabled true; EMsg "Adding...";
                              EPost (num_of_Z id) (quantity_of qty); ENavigate] |})
  | None =>
      (Ret tt, {| pending := rest;
                  trace := [EDisabled true; EMsg "Adding...";
                            EPost (num_of_Z id) (quantity_of qty); ENavigate] |})
  end.
Proof.
  unfold upsell_due, run, on_add_click. cbn -[getUpsellVariantIdFromSection includes].
  destruct (getUpsellVariantIdFromSection c f) as [u|]; [|reflexivity].
  destruct (_ && _); [|reflexivity].
  destruct rest as [|o rest]; [reflexivity|]. destruct o; reflexivity.
Qed.

Lemma on_add_click_fail p id qty c f oracle :
  hd NetErr oracle <> NetOk ->
  run (on_add_click p (Some id) qty c f) oracle =
  (Ret tt, {| pending := tl oracle;
              trace := [EDisabled true; EMsg "Adding...";
                        EPost (num_of_Z id) (quantity_of qty); EError;
                        EMsg "Could not add to cart. Try again."; EDisabled false] |}).
Proof.
  intros H. destruct oracle as [|o rest]; [reflexivity|].
  destruct o; simpl in H; [congruence | reflexivity | reflexivity].
Qed.

(** A truthy option value of the variant contains [sub] once lower-cased. *)
Definition value_contains (cv : variant) (sub : string) : Prop :=
  exists k s, (1 <= k <= 3)%nat /\ opt_slot cv k = JStr s /\ s <> ""%string /\
    exists a b, toLowerCase s = (a ++ sub ++ b)%string.

(** The upsell rule in the words of the specification. *)
Definition upsell_rule_spec (p : product) (id : Z) (closest first_in_document : option section)
  : Prop :=
  exists cv, find (fun v => Z.eqb (v_id v) id) (variants p) = Some cv /\
    value_contains cv "black" /\ value_contains cv "medium" /\
    getUpsellVariantIdFromSection closest first_in_document <> None.

Definition slot_contains (o : jsval) (sub : string) : bool :=
  match o with
  | JStr s => js_truthy_str (Some s) && includes (toLowerCase s) sub
  | _ => false
  end.

Lemma existsb_option_values cv sub :
  existsb (fun v => includes v sub) (option_values (Some cv)) =
  slot_contains (option1 cv) sub || slot_contains (option2 cv) sub ||
  slot_contains (option3 cv) sub.
Proof.
  unfold option_values, slot_contains.
  destruct (option1 cv) as [s1| |], (option2 cv) as [s2| |], (option3 cv) as [s3| |];
    simpl; repeat (destruct (negb _)); simpl; rewrite ?orb_false_r, ?orb_assoc; reflexivity.
Qed.

Lemma slot_contains_spec o sub :
  slot_contains o sub = true <->
  exists s, o = JStr s /\ s <> ""%string /\ exists a b, toLowerCase s = (a ++ sub ++ b)%string.
Proof.
  destruct o as [s| |]; simpl.
  - rewrite andb_true_iff, negb_true_iff, String.eqb_neq, includes_spec. split.
    + intros [H1 H2]. exists s. auto.
    + intros (s' & E & H1 & H2). inversion E; subst. auto.
  - split; [discriminate | intros (s & E & _); discriminate].
  - split; [discriminate | intros (s & E & _); discriminate].
Qed.

Lemma value_contains_spec cv sub :
  existsb (fun v => includes v sub) (option_values (Some cv)) = true <-> value_contains cv sub.
Proof.
  rewrite existsb_option_values, !orb_true_iff, !slot_contains_spec. unfold value_contains.
  split.
  - intros [[(s & E & H)|(s & E & H)]|(s & E & H)];
      [exists 1%nat | exists 2%nat | exists 3%nat]; exists s; simpl; repeat split; try lia; tauto.
  - intros (k & s & Hk & E & H).
    destruct k as [|[|[|[|k]]]]; try lia; simpl in E; eauto 10.
Qed.

Lemma upsell_due_spec p id c f :
  upsell_due p id c f = true <-> upsell_rule_spec p id c f.
Proof.
  unfold upsell_due, upsell_rule_spec.
  destruct (getUpsellVariantIdFromSection c f) as [u|].
  - destruct (find _ (variants p)) as [cv|].
    + rewrite andb_true_iff, !value_contains_spec. split.
      * intros [H1 H2]. exists cv. repeat split; auto; discriminate.
      * intros (cv' & E & H1 & H2 & _). inversion E; subst. auto.
    + simpl. split; [discriminate | intros (cv & E & _); discriminate].
  - split; [discriminate | intros (cv & _ & _ & _ & H); congruence].
Qed.

(** C2: after a successful primary add, a second add of quantity 1 for
    the configured upsell id is posted exactly when the chosen variant
    has a truthy option value containing "black" and one containing
    "medium" once lower-cased, and an upsell id is configured; without a
    configured id a single add is posted. *)
Theorem upsell_iff_black_medium (p : product) (id : Z) (qty : string)
  (c f : option section) (rest : list net) :
  let posts := post_calls (trace (snd (run (on_add_click p (Some id) qty c f) (NetOk :: rest)))) in
  (upsell_rule_spec p id c f ->
   exists u, getUpsellVariantIdFromSection c f = Some u /\
     posts = [(num_of_Z id, quantity_of qty); (u, num_of_Z 1)]) /\
  (~ upsell_rule_spec p id c f -> posts = [(num_of_Z id, quantity_of qty)]) /\
  (getUpsellVariantIdFromSection c f = None -> posts = [(num_of_Z id, quantity_of qty)]).
Proof.
  cbv zeta. rewrite on_add_click_ok. rewrite <- upsell_due_spec. split; [|split].
  - intros Hdue. rewrite Hdue.
    destruct (getUpsellVariantIdFromSection c f) as [u|] eqn:Hu.
    + exists u. split; [reflexivity|]. simpl.
      destruct (hd NetErr rest); reflexivity.
    + unfold upsell_due in Hdue. rewrite Hu in Hdue. discriminate.
  - intros Hdue. destruct (getUpsellVariantIdFromSection c f); [|reflexivity].
    destruct (upsell_due p id c f); [exfalso; auto | reflexivity].
  - intros ->. reflexivity.
Qed.

Definition blackout_variant : variant :=
  {| v_id := 7; v_title := Some "Blackout / Medium-ish"; v_price := 2500; v_available := true;
     option1 := JStr "Blackout"; option2 := JStr "Medium-ish"; option3 := JNull |}.

Definition blackout_product : product :=
  {| p_title := "Hoodie"; options := ["Color"; "Size"]; variants := [blackout_variant] |}.

Definition upsell_section : section := {| data_upsell_variant := Some "42" |}.


(** C3: the upsell add is only posted once the primary add succeeded; on
    success the trace is the primary add, then possibly the upsell add
    (followed, if it fails, by a console warning only), then the
    navigation to the cart; the handler itself never rejects. *)
Theorem upsell_after_primary_then_navigate (p : product) (id : Z) (qty : string)
  (c f : option section) (oracle : list net) :
  let '(r, s) := run (on_add_click p (Some id) qty c f) oracle in
  r = Ret tt /\
  ((2 <= length (post_calls (trace s)))%nat -> hd NetErr oracle = NetOk) /\
  (hd NetErr oracle = NetOk ->
   exists up,
     trace s = [EDisabled true; EMsg "Adding..."; EPost (num_of_Z id) (quantity_of qty)] ++
               up ++ [ENavigate] /\
     (up = [] \/
      exists u, up = EPost u (num_of_Z 1) ::
                     match hd NetErr (tl oracle) with NetOk => [] | _ => [EWarn] end)).
Proof.
  destruct (hd NetErr oracle) eqn:Ho.
  - destruct oracle as [|o rest]; [discriminate|]. simpl in Ho. subst o.
    rewrite on_add_click_ok.
    destruct (getUpsellVariantIdFromSection c f) as [u|];
      [destruct (upsell_due p id c f)|].
    + split; [reflexivity|]. split; [intros _; reflexivity|]. intros _.
      exists (EPost u (num_of_Z 1) :: match hd NetErr rest with NetOk => [] | _ => [EWarn] end).
      split; [reflexivity|]. right. exists u. reflexivity.
    + split; [reflexivity|]. split; [intros _; reflexivity|]. intros _.
      exists []. split; [reflexivity|]. left; reflexivity.
    + split; [reflexivity|]. split; [intros _; reflexivity|]. intros _.
      exists []. split; [reflexivity|]. left; reflexivity.
  - rewrite on_add_click_fail by (rewrite Ho; discriminate).
    split; [reflexivity|]. split; [simpl; lia | discriminate].
  - rewrite on_add_click_fail by (rewrite Ho; discriminate).
    split; [reflexivity|]. split; [simpl; lia | discriminate].
Qed.

(** C5: when the primary add fails (non-success status or rejection),
    exactly one add is posted and one network outcome consumed, the
    failure message is shown, the button is re-enabled, and neither an
    upsell add nor a navigation follows. *)
Theorem primary_failure_no_retry (p : product) (id : Z) (qty : string)
  (c f : option section) (oracle : list net) :
  hd NetErr oracle <> NetOk ->
  run (on_add_click p (Some id) qty c f) oracle =
  (Ret tt, {| pending := tl oracle;
              trace := [EDisabled true; EMsg "Adding...";
                        EPost (num_of_Z id) (quantity_of qty); EError;
                        EMsg "Could not add to cart. Try again."; EDisabled false] |}).
Proof. exact (on_add_click_fail p id qty c f oracle). Qed.


(** C6: a quick-view trigger without a handle ([null] or empty) raises
    the alert and changes nothing, with no product fetch; the add button
    without a resolved variant id shows the inline message, re-enables
    itself and consumes no network outcome (no add is posted). *)
Theorem missing_input_no_network (pg : page) (ld : load) (p : product) (qty : string)
  (c f : option section) (oracle : list net) :
  on_click pg (TQuick None) ld = (pg, [EAlert "Product handle missing"]) /\
  on_click pg (TQuick (Some "")) ld = (pg, [EAlert "Product handle missing"]) /\
  run (on_add_click p None qty c f) oracle =
  (Ret tt, {| pending := oracle;
              trace := [EDisabled true; EMsg "Adding...";
                        EMsg "Please select variant"; EDisabled false] |}).
Proof. split; [|split]; reflexivity. Qed.

(** C10: the primary add posts [Number(vid)] and [Number(qty || 1)]: an
    empty quantity input posts quantity 1, any other value goes through
    [Number]. *)
Theorem primary_post_body (p : product) (id : Z) (qty : string)
  (c f : option section) (oracle : list net) :
  (exists rest,
     trace (snd (run (on_add_click p (Some id) qty c f) oracle)) =
     [EDisabled true; EMsg "Adding...";
      EPost (num_of_Z id) (if String.eqb qty "" then num_of_Z 1 else str_to_number qty)] ++ rest) /\
  quantity_of "" = JDec false 1 0.
Proof.
  split; [|reflexivity].
  assert (Hq : quantity_of qty = if String.eqb qty "" then num_of_Z 1 else str_to_number qty).
  { unfold quantity_of, js_truthy_str. destruct (String.eqb qty ""); reflexivity. }
  rewrite <- Hq.
  destruct (hd NetErr oracle) eqn:Ho.
  - destruct oracle as [|o rest]; [discriminate|]. simpl in Ho; subst o.
    rewrite on_add_click_ok.
    destruct (getUpsellVariantIdFromSection c f); [destruct (upsell_due p id c f)|];
      eexists; reflexivity.
  - rewrite on_add_click_fail by (rewrite Ho; discriminate). eexists; reflexivity.
  - rewrite on_add_click_fail by (rewrite Ho; discriminate). eexists; reflexivity.
Qed.

(* ------------------------------------------------------------------ *)
(** ** Money formatter *)

Lemma toFixed_2_total (x : dbl) : exists t, toFixed x 2 = Ret t.
Proof.
  unfold toFixed. replace ((2 <? 0) || (100 <? 2)) with false by reflexivity.
  destruct x as [neg m e| neg |]; [|eexists; reflexivity..].
  destruct (dbl_abs_q m e) as [a b]. case (10 ^ 21 * b <=? a); eexists; reflexivity.
Qed.

(** C7 (as amended): [formatMoney] never throws. When the Intl currency
    formatter throws (no active currency, or a malformed code) the result
    is [(cents / 100).toFixed(2)], computed on doubles, so 1999 gives
    "19.99" (and 7040000000000001, whose quotient is the double
    70400000000000.015625, gives "70400000000000.02"); with an active
    currency the Intl result is returned, whose amount has the currency's
    fraction digits: "19.99" for USD but "20" for JPY. *)
Theorem formatMoney_total (active : option string) (cents : Z) :
  let x := div100 (dbl_of_Z cents) in
  (exists t, toFixed x 2 = Ret t /\
     formatMoney active cents =
     (match intl_currency_format (if js_truthy_str active then active else None) x with
      | Ret s => Ret s
      | Exc => Ret (Fixed t)
      end)) /\
  formatMoney None 1999 = Ret (Fixed "19.99") /\
  formatMoney (Some "") 1999 = Ret (Fixed "19.99") /\
  formatMoney None 7040000000000001 = Ret (Fixed "70400000000000.02") /\
  formatMoney (Some "USD") 1999 = Ret (Localized "USD" "19.99") /\
  formatMoney (Some "JPY") 1999 = Ret (Localized "JPY" "20").
Proof.
  cbv zeta. split; [|repeat split; vm_compute; reflexivity].
  destruct (toFixed_2_total (div100 (dbl_of_Z cents))) as [t Ht].
  exists t. split; [exact Ht|].
  unfold formatMoney. rewrite Ht. destruct (intl_currency_format _ _); reflexivity.
Qed.

(** C7 fails as stated: with JPY active, 1999 is not shown as 19.99. *)
Lemma formatMoney_jpy_1999 :
  match formatMoney (Some "JPY") 1999 with
  | Ret s => shown_amount s <> "19.99"%string
  | Exc => False
  end.
Proof. vm_compute. discriminate. Qed.

(* ------------------------------------------------------------------ *)
(** ** Modal and scroll lock *)

Definition lock_matches_open (pg : page) : Prop :=
  no_scroll pg = match modal pg with Some true => true | _ => false end.

Lemma ui_step_lock (pg : page) (e : ui_event) :
  lock_matches_open pg -> lock_matches_open (ui_step pg e).
Proof.
  unfold lock_matches_open. destruct pg as [[b|] ns]; simpl; intros H;
    destruct e as [t ld | k]; simpl.
  - destruct t as [h | |]; simpl; [|reflexivity|exact H].
    destruct (negb (js_truthy_str h)); [exact H|]. destruct ld; simpl; auto.
  - unfold on_keydown. destruct (String.eqb k "Escape"); [destruct b|]; simpl; auto.
  - destruct t as [h | |]; simpl; [|exact H|exact H].
    destruct (negb (js_truthy_str h)); [exact H|]. destruct ld; simpl; auto.
  - unfold on_keydown. destruct (String.eqb k "Escape"); exact H.
Qed.

(** C8: from the initial page, whatever the clicks and key presses, the
    scroll lock is on exactly when the modal is open; Escape closes an
    open modal and removes the lock, and does nothing when the modal is
    closed or not created; a successful quick view opens and locks; the
    close controls (button and backdrop) close and unlock. *)
Theorem scroll_lock_iff_open (es : list ui_event) :
  lock_matches_open (ui_run initial_page es) /\
  (forall ns, on_keydown {| modal := Some true; no_scroll := ns |} "Escape" =
              {| modal := Some false; no_scroll := false |}) /\
  (forall ns, on_keydown {| modal := Some false; no_scroll := ns |} "Escape" =
              {| modal := Some false; no_scroll := ns |}) /\
  (forall ns, on_keydown {| modal := None; no_scroll := ns |} "Escape" =
              {| modal := None; no_scroll := ns |}) /\
  (forall pg ch h, fst (on_click pg (TQuick (Some (String ch h))) Loaded) =
                   {| modal := Some true; no_scroll := true |}) /\
  (forall b ns ld, fst (on_click {| modal := Some b; no_scroll := ns |} TClose ld) =
                   {| modal := Some false; no_scroll := false |}).
Proof.
  split; [|repeat split; reflexivity].
  unfold ui_run. assert (H0 : lock_matches_open initial_page) by reflexivity.
  revert H0. generalize initial_page. induction es as [|e es IH]; intros pg H; simpl.
  - exact H.
  - apply IH. apply ui_step_lock. exact H.
Qed.

(* ------------------------------------------------------------------ *)
(** ** Upsell id lookup *)

(** U+00A0 NO-BREAK SPACE, in UTF-8. *)
Definition nbsp : string := String (ascii_of_nat 194) (String (ascii_of_nat 160) EmptyString).

(** C9: the lookup yields nothing when the attribute is missing, empty,
    or [Number]-coerces to NaN or to zero ("0", "  ", a lone no-break
    space, "0.000", "1e-400" included), and otherwise yields the coerced
    number, negative or fractional values, and numerals padded with
    Unicode white space, included. *)
Theorem upsell_id_truthiness (sec : section) :
  (getUpsellVariantIdFromSection (Some sec) None = None <->
   data_upsell_variant sec = None \/
   exists v, data_upsell_variant sec = Some v /\
             (v = ""%string \/ js_truthy_num (str_to_number v) = false)) /\
  (forall v, data_upsell_variant sec = Some v -> js_truthy_num (str_to_number v) = true ->
   getUpsellVariantIdFromSection (Some sec) None = Some (str_to_number v)) /\
  map (fun v => getUpsellVariantIdFromSection (Some {| data_upsell_variant := Some v |}) None)
      ["0"; "  "; nbsp; "0.000"; "1e-400"; "abc"; ""; "-3"; "2.5"; "0x10"; nbsp ++ "7"]%string =
  [None; None; None; None; None; None; None;
   Some (JDec true 3 0); Some (JDec false 25 (-1)); Some (JDec false 16 0);
   Some (JDec false 7 0)].
Proof.
  split; [|split; [|vm_compute; reflexivity]].
  all: unfold getUpsellVariantIdFromSection, findGridSection, js_truthy_str.
  all: destruct (data_upsell_variant sec) as [v|].
  - destruct (String.eqb v "") eqn:Hv; cbn -[str_to_number js_truthy_num].
    + apply String.eqb_eq in Hv. split; [intros _; right; exists v; auto | reflexivity].
    + apply String.eqb_neq in Hv.
      destruct (js_truthy_num (str_to_number v)) eqn:Ht; split.
      * discriminate.
      * intros [E | (w & E & [Hw | Hw])]; [discriminate | inversion E; subst; congruence
                                          | inversion E; subst; congruence].
      * intros _; right; exists v; auto.
      * reflexivity.
  - split; [intros _; left; reflexivity | reflexivity].
  - intros w E Ht. inversion E; subst.
    destruct (String.eqb w "") eqn:Hv; cbn -[str_to_number js_truthy_num].
    + apply String.eqb_eq in Hv. subst. discriminate.
    + rewrite Ht. reflexivity.
  - intros v E; discriminate.
Qed.

Lemma upsell_id_truthiness_witness :
  data_upsell_variant {| data_upsell_variant := Some "-2.5" |} = Some "-2.5"%string /\
  js_truthy_num (str_to_number "-2.5") = true /\
  getUpsellVariantIdFromSection (Some {| data_upsell_variant := Some "-2.5" |}) None =
  Some (str_to_number "-2.5").
Proof.
  split; [reflexivity|]. split; [vm_compute; reflexivity|].
  apply (proj1 (proj2 (upsell_id_truthiness {| data_upsell_variant := Some "-2.5" |})) "-2.5"%string);
    [reflexivity | vm_compute; reflexivity].
Defined.

(* ------------------------------------------------------------------ *)
(** ** Picker pre-seeding *)

(** The data model of the specification: distinct option names, at most
    three of them, every variant filling the slots of the options with
    non-empty strings, and no two variants with the same option tuple. *)
Definition wf_product (p : product) : Prop :=
  NoDup (options p) /\ (length (options p) <= 3)%nat /\
  (forall v k, In v (variants p) -> (1 <= k <= length (options p))%nat ->
     exists s, opt_slot v k = JStr s /\ s <> ""%string) /\
  (forall v w, In v (variants p) -> In w (variants p) ->
     (forall k, (1 <= k <= length (options p))%nat -> opt_slot v k = opt_slot w k) -> v = w).

(** Option names and values that a [CSS.escape] selector reads back as
    themselves: no NUL character and no lone surrogate. *)
Definition selector_safe (p : product) : Prop :=
  (forall n, In n (options p) -> css_value n = n) /\
  (forall v k s, In v (variants p) -> opt_slot v k = JStr s -> css_value s = s).

(** What a resolved click shows for variant [v]. *)
Definition shows (p : product) (v : variant) : display :=
  {| d_title := variant_heading p v; d_price := Some (v_price v); d_variantId := Some (v_id v) |}.

Lemma initial_variant_in p iv : initial_variant p = Some iv -> In iv (variants p).
Proof.
  unfold initial_variant. destruct (find v_available (variants p)) eqn:E.
  - intros H; inversion H; subst. apply find_some in E. tauto.
  - destruct (variants p); simpl; intros H; inversion H; subst; left; reflexivity.
Qed.

Lemma in_distinct_acc (xs acc : list jsval) (x : jsval) :
  In x (fold_left (fun acc x => if existsb (jsval_eqb x) acc then acc else (acc ++ [x])%list)
                  xs acc) <-> In x acc \/ In x xs.
Proof.
  revert acc; induction xs as [|a xs IH]; intros acc; simpl.
  - tauto.
  - rewrite IH. destruct (existsb (jsval_eqb a) acc) eqn:E.
    + apply existsb_exists in E. destruct E as (y & Hy & Eq).
      apply jsval_eqb_eq in Eq. subst y. split; [tauto|].
      intros [H|[<-|H]]; auto.
    + rewrite in_app_iff. simpl. tauto.
Qed.

Lemma in_distinct xs x : In x (distinct xs) <-> In x xs.
Proof. unfold distinct. rewrite in_distinct_acc. simpl. tauto. Qed.

Lemma in_enum_from {A} (l : list A) (k i : nat) (x : A) :
  In (i, x) (enum_from k l) <-> (k <= i)%nat /\ nth_error l (i - k) = Some x.
Proof.
  revert k; induction l as [|a l IH]; intros k; simpl.
  - split; [tauto|]. intros [_ H]. destruct (i - k)%nat; discriminate.
  - rewrite IH. split.
    + intros [E | [H1 H2]].
      * inversion E; subst. rewrite Nat.sub_diag. split; [lia | reflexivity].
      * split; [lia|]. replace (i - k)%nat with (S (i - S k)) by lia. exact H2.
    + intros [H1 H2]. destruct (Nat.eq_dec i k) as [->|Hne].
      * left. rewrite Nat.sub_diag in H2. inversion H2; reflexivity.
      * right. split; [lia|]. replace (i - k)%nat with (S (i - S k)) in H2 by lia. exact H2.
Qed.

Lemma in_enum0 {A} (l : list A) i x : In (i, x) (enum_from 0 l) <-> nth_error l i = Some x.
Proof. rewrite in_enum_from, Nat.sub_0_r. split; [tauto | split; [lia | auto]]. Qed.

Lemma in_buttons p b :
  In b (buttons p) <->
  exists j optName w, nth_error (options p) j = Some optName /\ In w (variants p) /\
    b = (optName, opt_slot w (j + 1)).
Proof.
  unfold buttons. rewrite in_flat_map. split.
  - intros ([j optName] & Hj & Hb). apply in_enum0 in Hj.
    apply in_map_iff in Hb. destruct Hb as (val & <- & Hval).
    apply in_distinct, in_map_iff in Hval. destruct Hval as (w & <- & Hw).
    exists j, optName, w. auto.
  - intros (j & optName & w & Hj & Hw & ->). exists (j, optName).
    split; [apply in_enum0; exact Hj|]. apply in_map_iff.
    exists (opt_slot w (j + 1)). split; [reflexivity|].
    apply in_distinct, in_map_iff. eauto.
Qed.

Lemma wf_slot p v j optName :
  wf_product p -> In v (variants p) -> nth_error (options p) j = Some optName ->
  exists s, opt_slot v (j + 1) = JStr s /\ s <> ""%string.
Proof.
  intros (_ & _ & Hfill & _) Hv Hj. apply Hfill; [exact Hv|].
  assert (j < length (options p))%nat by (apply nth_error_Some; congruence). lia.
Qed.

Lemma query_button_found p iv i optName :
  wf_product p -> selector_safe p -> In iv (variants p) -> nth_error (options p) i = Some optName ->
  query_button (buttons p) optName (opt_slot iv (i + 1)) = Some (optName, opt_slot iv (i + 1)).
Proof.
  intros Hwf [Hsn Hsv] Hiv Hi. unfold query_button.
  destruct (wf_slot p iv i optName Hwf Hiv Hi) as (s & Hs & Hne). rewrite Hs. simpl.
  rewrite (Hsv iv (i + 1)%nat s Hiv Hs), (Hsn optName (nth_error_In _ _ Hi)).
  destruct (find _ (buttons p)) as [[n' v']|] eqn:E.
  - apply find_some in E. destruct E as [Hin Hf].
    apply andb_true_iff in Hf. destruct Hf as [Hn Ha].
    apply String.eqb_eq in Hn, Ha. subst n'.
    apply in_buttons in Hin. destruct Hin as (j & n & w & Hj & Hw & E).
    inversion E; subst n v'.
    destruct (wf_slot p w j optName Hwf Hw Hj) as (s' & Hs' & _). rewrite Hs' in Ha |- *.
    simpl in Ha. subst. reflexivity.
  - exfalso.
    assert (Hin : In (optName, JStr s) (buttons p)).
    { apply in_buttons. exists i, optName, iv. rewrite Hs. auto. }
    pose proof (find_none _ _ E (optName, JStr s) Hin) as H.
    simpl in H. rewrite !String.eqb_refl in H. discriminate.
Qed.

Lemma own_set_idem o k v : own_set (own_set o k v) k v = own_set o k v.
Proof.
  induction o as [|[k' v'] r IH]; simpl.
  - rewrite String.eqb_refl. reflexivity.
  - destruct (String.eqb k k') eqn:E; simpl; rewrite E; [reflexivity|]. rewrite IH. reflexivity.
Qed.

Lemma own_get_set o k v k' :
  own_get (own_set o k v) k' = if String.eqb k' k then Some v else own_get o k'.
Proof.
  induction o as [|[k0 v0] r IH]; simpl.
  - destruct (String.eqb k' k); reflexivity.
  - destruct (String.eqb_spec k k0) as [->|Hne]; simpl.
    + destruct (String.eqb k' k0); reflexivity.
    + rewrite IH. destruct (String.eqb k' k) eqn:E1; [|reflexivity].
      apply String.eqb_eq in E1. subst.
      apply String.eqb_neq in Hne. rewrite Hne. reflexivity.
Qed.

(** Away from [__proto__], an assignment writes an own property. *)
Lemma sel_set_own sel k v :
  k <> "__proto__"%string ->
  sel_set sel k v = {| own := own_set (own sel) k v; has_proto := has_proto sel |}.
Proof.
  intros Hk. unfold sel_set. destruct (own_get (own sel) k); [reflexivity|].
  apply String.eqb_neq in Hk. rewrite Hk, andb_false_r. reflexivity.
Qed.

Lemma sel_set_idem sel k v :
  k <> "__proto__"%string -> sel_set (sel_set sel k v) k v = sel_set sel k v.
Proof.
  intros Hk. rewrite !(sel_set_own _ _ _ Hk). simpl. rewrite own_set_idem. reflexivity.
Qed.

Definition set_pair (sel : jsobject) (b : string * jsval) : jsobject :=
  sel_set sel (fst b) (snd b).

Definition own_set_pair (o : list (string * jsval)) (b : string * jsval) : list (string * jsval) :=
  own_set o (fst b) (snd b).

Lemma fold_set_pair_own (l : list (string * jsval)) sel :
  (forall b, In b l -> fst b <> "__proto__"%string) ->
  fold_left set_pair l sel =
  {| own := fold_left own_set_pair l (own sel); has_proto := has_proto sel |}.
Proof.
  revert sel; induction l as [|b l IH]; intros sel H; simpl.
  - destruct sel; reflexivity.
  - rewrite IH by (intros b' Hb'; apply H; right; exact Hb').
    unfold set_pair. rewrite sel_set_own by (apply H; left; reflexivity). reflexivity.
Qed.

Lemma fold_left_in_ext {A B} (f g : A -> B -> A) (l : list B) (a : A) :
  (forall x a', In x l -> f a' x = g a' x) -> fold_left f l a = fold_left g l a.
Proof.
  revert a; induction l as [|x l IH]; intros a H; simpl; [reflexivity|].
  rewrite H by (left; reflexivity). apply IH. intros y a' Hy. apply H. right; exact Hy.
Qed.

Lemma fold_left_map_fun {A B C} (f : A -> B -> A) (g : C -> B) (l : list C) (a : A) :
  fold_left f (map g l) a = fold_left (fun a x => f a (g x)) l a.
Proof. revert a; induction l as [|x l IH]; intros a; simpl; [reflexivity | apply IH]. Qed.

Lemma click_fst p st b : fst (click p st b) = set_pair (fst st) b.
Proof.
  destruct st as [sel d], b as [n v]. unfold click.
  destruct (findVariant p _); reflexivity.
Qed.

Lemma fold_click_fst p (l : list (string * jsval)) st :
  fst (fold_left (click p) l st) = fold_left set_pair l (fst st).
Proof.
  revert st; induction l as [|b l IH]; intros st; simpl; [reflexivity|].
  rewrite IH, click_fst. reflexivity.
Qed.

(** After a non-empty run of clicks, the display is that of the variant
    the final selection resolves to. *)
Lemma fold_click_last p (l : list (string * jsval)) st v :
  l <> [] -> findVariant p (fst (fold_left (click p) l st)) = Some v ->
  snd (fold_left (click p) l st) = shows p v.
Proof.
  revert st; induction l as [|b l IH]; intros st Hl Hv; [congruence|].
  destruct l as [|b' l].
  - simpl in *. destruct st as [sel d], b as [n w]. unfold click in *.
    destruct (findVariant p (sel_set sel n w)) eqn:E; simpl in Hv; rewrite E in Hv;
      inversion Hv; subst; reflexivity.
  - simpl. apply IH; [discriminate | exact Hv].
Qed.

Lemma own_get_fold_notin (l : list (string * jsval)) o k :
  ~ In k (map fst l) -> own_get (fold_left own_set_pair l o) k = own_get o k.
Proof.
  revert o; induction l as [|[k' v'] l IH]; intros o H; simpl in *; [reflexivity|].
  rewrite IH by (intros Hin; apply H; right; exact Hin).
  unfold own_set_pair. simpl. rewrite own_get_set.
  destruct (String.eqb_spec k k') as [E|]; [exfalso; apply H; left; symmetry; exact E | reflexivity].
Qed.

Lemma own_get_fold_in (l : list (string * jsval)) o k v :
  NoDup (map fst l) -> In (k, v) l -> own_get (fold_left own_set_pair l o) k = Some v.
Proof.
  revert o; induction l as [|[k' v'] l IH]; intros o Hnd Hin; simpl in *; [destruct Hin|].
  apply NoDup_cons_iff in Hnd. destruct Hnd as [Hnot Hnd'].
  destruct Hin as [E | Hin].
  - injection E as <- <-. rewrite own_get_fold_notin by exact Hnot.
    unfold own_set_pair. simpl. rewrite own_get_set, String.eqb_refl. reflexivity.
  - apply IH; assumption.
Qed.

(** The buttons the shopper clicks for the values of [iv]. *)
Definition iv_buttons (p : product) (iv : variant) : list (string * jsval) :=
  map (fun '(idx, optName) => (optName, opt_slot iv (idx + 1))) (enum_from 0 (options p)).

Lemma map_fst_iv_buttons_from (l : list string) iv k :
  map fst (map (fun '(idx, optName) => (optName, opt_slot iv (idx + 1))) (enum_from k l)) = l.
Proof.
  revert k; induction l as [|x l IH]; intros k; simpl; [reflexivity|]. rewrite IH. reflexivity.
Qed.

Lemma iv_buttons_names p iv b :
  In b (iv_buttons p iv) -> In (fst b) (options p).
Proof.
  intros Hb. rewrite <- (map_fst_iv_buttons_from (options p) iv 0).
  apply in_map. exact Hb.
Qed.

Lemma manual_clicks_fold p iv d :
  manual_clicks p iv d = fold_left (click p) (iv_buttons p iv) (empty_object, d).
Proof.
  unfold manual_clicks, iv_buttons. rewrite fold_left_map_fun.
  apply fold_left_in_ext. intros [i n] a _. reflexivity.
Qed.

Lemma preseed_fold p iv d :
  wf_product p -> selector_safe p -> ~ In "__proto__"%string (options p) -> In iv (variants p) ->
  fold_left (preseed_step p iv) (enum_from 0 (options p)) (empty_object, d) =
  fold_left (click p) (iv_buttons p iv) (empty_object, d).
Proof.
  intros Hwf Hsafe Hproto Hiv. unfold iv_buttons. rewrite fold_left_map_fun.
  apply fold_left_in_ext. intros [i n] [sel d'] Hin. apply in_enum0 in Hin.
  unfold preseed_step. rewrite (query_button_found p iv i n Hwf Hsafe Hiv Hin).
  unfold click. rewrite sel_set_idem; [reflexivity|].
  intros ->. apply Hproto. eapply nth_error_In; eauto.
Qed.

(** A selected non-empty string lets through exactly the variants that
    hold it in the option's slot. *)
Lemma option_ok_selected sel v j n w :
  sel_get sel n = PVal (JStr w) -> w <> ""%string ->
  option_ok sel v j n = true <-> opt_slot v (S j) = JStr w.
Proof.
  intros Hg Hne. unfold option_ok. rewrite Hg, Nat.add_1_r. simpl.
  apply String.eqb_neq in Hne. rewrite Hne. simpl. apply jsval_eqb_eq.
Qed.

(** The selection built from all the values of [iv] resolves to [iv]. *)
Lemma findVariant_full_selection p iv :
  wf_product p -> ~ In "__proto__"%string (options p) -> In iv (variants p) ->
  findVariant p (fold_left set_pair (iv_buttons p iv) empty_object) = Some iv.
Proof.
  intros Hwf Hproto Hiv. set (sel := fold_left set_pair (iv_buttons p iv) empty_object).
  assert (Hget : forall j n, nth_error (options p) j = Some n -> sel_get sel n = PVal (opt_slot iv (S j))).
  { intros j n Hj. subst sel. rewrite fold_set_pair_own.
    - unfold sel_get. simpl. rewrite (own_get_fold_in _ _ n (opt_slot iv (S j))); [reflexivity| |].
      + unfold iv_buttons. rewrite map_fst_iv_buttons_from. apply Hwf.
      + unfold iv_buttons. apply in_map_iff. exists (j, n).
        rewrite Nat.add_1_r. split; [reflexivity | apply in_enum0; exact Hj].
    - intros b Hb E. apply Hproto. rewrite <- E. exact (iv_buttons_names p iv b Hb). }
  assert (Hslot : forall j n, nth_error (options p) j = Some n ->
            exists s, opt_slot iv (S j) = JStr s /\ s <> ""%string).
  { intros j n Hj. rewrite <- Nat.add_1_r. exact (wf_slot p iv j n Hwf Hiv Hj). }
  assert (Hiv_m : variant_matches p sel iv = true).
  { unfold variant_matches. apply every_idx_spec. intros j n Hj. simpl.
    destruct (Hslot j n Hj) as (s & Hs & Hne).
    rewrite (option_ok_selected sel iv j n s); [exact Hs | | exact Hne].
    rewrite (Hget j n Hj), Hs. reflexivity. }
  unfold findVariant. destruct (find (variant_matches p sel) (variants p)) as [w|] eqn:E.
  - apply find_some in E. destruct E as [Hw Hm].
    unfold variant_matches in Hm. rewrite every_idx_spec in Hm.
    f_equal. destruct Hwf as (Hnd & Hlen & Hfill & Huniq).
    apply Huniq; [exact Hw | exact Hiv |]. intros k Hk.
    destruct k as [|j]; [lia|].
    destruct (nth_error (options p) j) as [n|] eqn:En; [|apply nth_error_None in En; lia].
    destruct (Hslot j n En) as (s & Hs & Hne).
    specialize (Hm j n En). simpl in Hm.
    rewrite (option_ok_selected sel w j n s) in Hm; [| rewrite (Hget j n En), Hs; reflexivity | exact Hne].
    congruence.
  - exfalso. rewrite (find_none _ _ E iv Hiv) in Hiv_m. discriminate.
Qed.

(** C4 (as amended): for a product of the specification's data model
    with at least one option, no option named [__proto__], and option
    names and values free of NUL characters and lone surrogates, the
    pre-selection shows the same title, price and variant id (and
    builds the same selection) as clicking through the initial variant's
    values, namely those of the initial variant; and a button is found
    for each of its values. *)
Theorem preseed_same_as_manual (p : product) (d : display) (iv : variant) :
  wf_product p -> selector_safe p -> ~ In "__proto__"%string (options p) ->
  options p <> [] -> initial_variant p = Some iv ->
  preseed p d = manual_clicks p iv d /\
  snd (preseed p d) = shows p iv /\
  (forall i optName, nth_error (options p) i = Some optName ->
     query_button (buttons p) optName (opt_slot iv (i + 1)) = Some (optName, opt_slot iv (i + 1))).
Proof.
  intros Hwf Hsafe Hproto Hne Hinit. pose proof (initial_variant_in p iv Hinit) as Hiv.
  assert (Hne' : iv_buttons p iv <> []).
  { unfold iv_buttons. destruct (options p); [congruence | discriminate]. }
  assert (Hfind : findVariant p (fst (fold_left (click p) (iv_buttons p iv) (empty_object, d))) = Some iv).
  { rewrite fold_click_fst. apply findVariant_full_selection; assumption. }
  pose proof (fold_click_last p _ _ iv Hne' Hfind) as Hlast.
  assert (Hpre : preseed p d = manual_clicks p iv d).
  { unfold preseed. rewrite Hinit, preseed_fold by assumption. rewrite manual_clicks_fold.
    destruct (fold_left (click p) (iv_buttons p iv) (empty_object, d)) as [sel d1].
    simpl in Hlast. subst d1. reflexivity. }
  split; [exact Hpre|]. split.
  - rewrite Hpre, manual_clicks_fold. exact Hlast.
  - intros i n Hi. apply query_button_found; assumption.
Qed.

Definition red_small : variant :=
  {| v_id := 11; v_title := Some "Red / Small"; v_price := 1500; v_available := false;
     option1 := JStr "Red"; option2 := JStr "Small"; option3 := JNull |}.

Definition black_medium : variant :=
  {| v_id := 12; v_title := Some "Black / Medium"; v_price := 1800; v_available := true;
     option1 := JStr "Black"; option2 := JStr "Medium"; option3 := JNull |}.

Definition tee : product :=
  {| p_title := "Tee"; options := ["Color"; "Size"]; variants := [red_small; black_medium] |}.

Definition empty_display : display := {| d_title := "Tee"; d_price := None; d_variantId := None |}.

Lemma tee_wf : wf_product tee.
Proof.
  split; [|split; [|split]].
  - repeat constructor; simpl; intuition discriminate.
  - simpl; lia.
  - intros v k Hv Hk. simpl in Hv, Hk.
    destruct Hv as [<-|[<-|[]]]; destruct k as [|[|[|k]]]; try lia;
      eexists; (split; [reflexivity | discriminate]).
  - intros v w Hv Hw Hk. simpl in Hv, Hw.
    destruct Hv as [<-|[<-|[]]]; destruct Hw as [<-|[<-|[]]]; try reflexivity;
      specialize (Hk 1%nat); simpl in Hk; discriminate Hk; lia.
Defined.

Lemma tee_selector_safe : selector_safe tee.
Proof.
  split.
  - intros n Hn. simpl in Hn. destruct Hn as [<-|[<-|[]]]; reflexivity.
  - intros v k s Hv Hs. simpl in Hv.
    destruct Hv as [<-|[<-|[]]]; destruct k as [|[|[|[|k]]]]; simpl in Hs;
      try discriminate; inversion Hs; reflexivity.
Defined.


Definition plain_tee : product :=
  {| p_title := "Tee"; options := []; variants := [black_medium] |}.

(** C4 fails as stated for a product without options: the pre-selection
    still shows the initial variant's price and id, which no click can. *)
Lemma preseed_no_options_differs :
  initial_variant plain_tee = Some black_medium /\
  snd (preseed plain_tee empty_display) =
    {| d_title := "Tee"; d_price := Some 1800; d_variantId := Some 12 |} /\
  snd (manual_clicks plain_tee black_medium empty_display) = empty_display /\
  snd (preseed plain_tee empty_display) <> snd (manual_clicks plain_tee black_medium empty_display).
Proof.
  split; [reflexivity|]. split; [reflexivity|]. split; [reflexivity|].
  vm_compute. discriminate.
Qed.


(* ================================================================== *)
(** * Further properties of the script *)

(* ------------------------------------------------------------------ *)
(** ** Description tag stripping *)

(** No ['<'] followed by a character other than ['>']. *)
Fixpoint no_open_tag (s : string) : bool :=
  match s with
  | EmptyString => true
  | String c r =>
      (if Ascii.eqb c "<" then
         match r with
         | String d _ => Ascii.eqb d ">"
         | EmptyString => true
         end
       else true) && no_open_tag r
  end.

Lemma strip_tags_from_no_open_tag (s : string) (b : bool) :
  no_open_tag (strip_tags_from s b) = true.
Proof.
  revert b; induction s as [|c s IH]; intros b; [reflexivity|].
  simpl. destruct b.
  - destruct (Ascii.eqb c ">"); apply IH.
  - destruct (Ascii.eqb c "<") eqn:Ec.
    + destruct s as [|d r].
      * simpl. rewrite Ec. reflexivity.
      * destruct (Ascii.eqb d ">") eqn:Ed; [|apply IH].
        apply Ascii.eqb_eq in Ed. subst d.
        specialize (IH false). simpl in IH |- *. rewrite Ec. simpl. exact IH.
    + simpl. rewrite Ec. apply IH.
Qed.

Lemma strip_tags_from_id (s : string) :
  no_open_tag s = true -> strip_tags_from s false = s.
Proof.
  induction s as [|c s IH]; intros H; [reflexivity|].
  simpl in H |- *. apply andb_true_iff in H. destruct H as [Hc Hs].
  destruct (Ascii.eqb c "<") eqn:Ec.
  - destruct s as [|d r]; [reflexivity|].
    rewrite Hc. rewrite IH by exact Hs. reflexivity.
  - rewrite IH by exact Hs. reflexivity.
Qed.

(** The description cleaning leaves no ['<'] that starts a tag (every
    remaining ['<'] is the last character or is followed by ['>']), so
    cleaning twice is cleaning once, and text without such a ['<'] is
    left as it is; the description text put in the modal never has
    such a ['<']. *)
Theorem strip_tags_idempotent (s : string) :
  no_open_tag (strip_tags s) = true /\
  strip_tags (strip_tags s) = strip_tags s /\
  (forall m, no_open_tag (description_text m) = true) /\
  (no_open_tag s = true -> strip_tags s = s).
Proof.
  pose proof (strip_tags_from_no_open_tag s false) as H.
  split; [exact H|]. split; [|split].
  - unfold strip_tags at 1. apply strip_tags_from_id. exact H.
  - intros m. unfold description_text. destruct (js_truthy_str (description m)); [|reflexivity].
    apply strip_tags_from_no_open_tag.
  - apply strip_tags_from_id.
Qed.

Lemma strip_tags_idempotent_witness :
  no_open_tag "a <> b <" = true /\ strip_tags "a <> b <" = "a <> b <"%string.
Proof.
  split; [reflexivity|].
  apply (proj2 (proj2 (proj2 (strip_tags_idempotent "a <> b <")))). reflexivity.
Defined.

(* ------------------------------------------------------------------ *)
(** ** Option buttons *)

Lemma distinct_nodup_acc (xs acc : list jsval) :
  NoDup acc ->
  NoDup (fold_left (fun acc x => if existsb (jsval_eqb x) acc then acc else (acc ++ [x])%list)
                   xs acc).
Proof.
  revert acc; induction xs as [|a xs IH]; intros acc H; simpl; [exact H|].
  apply IH. destruct (existsb (jsval_eqb a) acc) eqn:E; [exact H|].
  apply Permutation_NoDup with (l := a :: acc).
  - apply Permutation_cons_append.
  - constructor; [|exact H]. intros Hin.
    assert (existsb (jsval_eqb a) acc = true) by
      (apply existsb_exists; exists a; split; [exact Hin | apply jsval_eqb_eq; reflexivity]).
    congruence.
Qed.

(** For each option, the rendered values are the values the variants
    carry in that option's slot, each exactly once. *)
Theorem option_group_values (p : product) (i : nat) :
  let vals := distinct (map (fun v => opt_slot v (i + 1)) (variants p)) in
  NoDup vals /\
  (forall x, In x vals <-> exists v, In v (variants p) /\ opt_slot v (i + 1) = x).
Proof.
  cbv zeta. split.
  - apply distinct_nodup_acc. constructor.
  - intros x. rewrite in_distinct, in_map_iff. split; intros (v & H1 & H2); eauto.
Qed.

(* ------------------------------------------------------------------ *)
(** ** Displayed variant *)

(** Whatever the clicks, the modal shows either what it showed before or
    the title, price and id of one variant of the product. *)
Theorem clicks_show_a_variant (p : product) (l : list (string * jsval))
  (st : jsobject * display) :
  snd (fold_left (click p) l st) = snd st \/
  exists v, In v (variants p) /\ snd (fold_left (click p) l st) = shows p v.
Proof.
  revert st; induction l as [|b l IH]; intros st; simpl; [left; reflexivity|].
  destruct (IH (click p st b)) as [H | H]; [|right; exact H].
  rewrite H. destruct st as [sel d], b as [n w]. unfold click.
  destruct (findVariant p (sel_set sel n w)) as [v|] eqn:E; [right | left; reflexivity].
  exists v. split; [|reflexivity]. unfold findVariant in E. apply find_some in E. tauto.
Qed.

(** Reusing the modal: loading a product with variants sets the price
    and session id to its initial variant's; loading one without
    variants keeps the previous price and session id, and the add button
    then posts the previous product's variant id, with no upsell. *)
Theorem load_then_add_session_id (p : product) (d : display) (qty : string)
  (c f : option section) (rest : list net) :
  (forall iv, initial_variant p = Some iv ->
     d_variantId (snd (load_product p d)) = Some (v_id iv) /\
     d_price (snd (load_product p d)) = Some (v_price iv)) /\
  (variants p = [] ->
     load_product p d =
       (empty_object, {| d_title := p_title p; d_price := d_price d; d_variantId := d_variantId d |}) /\
     forall old, d_variantId d = Some old ->
       post_calls (trace (snd (run (on_add_click p (d_variantId (snd (load_product p d))) qty c f)
                                   (NetOk :: rest)))) =
       [(num_of_Z old, quantity_of qty)]).
Proof.
  split.
  - intros iv Hinit. unfold load_product, preseed. rewrite Hinit.
    destruct (fold_left _ _ _). split; reflexivity.
  - intros Hv. assert (Hl : load_product p d =
      (empty_object, {| d_title := p_title p; d_price := d_price d; d_variantId := d_variantId d |})).
    { unfold load_product, preseed, initial_variant. rewrite Hv. reflexivity. }
    split; [exact Hl|]. intros old Hold. rewrite Hl. simpl. rewrite Hold.
    rewrite on_add_click_ok. unfold upsell_due. rewrite Hv. simpl.
    destruct (getUpsellVariantIdFromSection c f); reflexivity.
Qed.

Definition previous_display : display :=
  {| d_title := "Tee — Black / Medium"; d_price := Some 1800; d_variantId := Some 12 |}.

Definition no_variant_product : product :=
  {| p_title := "Gift card"; options := ["Title"]; variants := [] |}.


(* ------------------------------------------------------------------ *)
(** ** Modal lifecycle *)

(** The events that go through [ensureModal]: a quick-view click with a
    handle whose product fetch succeeds. *)
Definition creates (e : ui_event) : bool :=
  match e with
  | Click (TQuick h) ld =>
      js_truthy_str h && match ld with LoadFail => false | _ => true end
  | _ => false
  end.

Lemma ui_step_modal_none (pg : page) (e : ui_event) :
  modal (ui_step pg e) = None <-> modal pg = None /\ creates e = false.
Proof.
  destruct pg as [m ns], e as [[h | |] ld | k]; simpl;
    [destruct (js_truthy_str h), ld | | | unfold on_keydown; destruct (String.eqb k "Escape")];
    destruct m as [[|]|]; simpl; intuition congruence.
Qed.

(** The modal node exists after a sequence of clicks and key presses
    exactly when it existed before or one of the events was a quick-view
    click with a handle whose fetch succeeded; once created it is never
    removed, and closing only clears its [open] class. *)
Theorem modal_created_once (pg : page) (es : list ui_event) :
  modal (ui_run pg es) = None <->
  modal pg = None /\ forallb (fun e => negb (creates e)) es = true.
Proof.
  unfold ui_run. revert pg; induction es as [|e es IH]; intros pg; simpl.
  - tauto.
  - rewrite IH, ui_step_modal_none, andb_true_iff, negb_true_iff. tauto.
Qed.

(* ------------------------------------------------------------------ *)
(** ** Failed product load *)

Definition is_open (pg : page) : bool :=
  match modal pg with Some true => true | _ => false end.

(** A quick-view click that does not get as far as [openModal] (no
    handle, a failed fetch, or a failure while rendering) leaves the
    modal's open state and the scroll lock as they were, and its last
    effect is an alert. *)
Theorem failed_quick_view_alerts (pg : page) (h : option string) (ld : load) :
  ld <> Loaded \/ js_truthy_str h = false ->
  is_open (fst (on_click pg (TQuick h) ld)) = is_open pg /\
  no_scroll (fst (on_click pg (TQuick h) ld)) = no_scroll pg /\
  exists pre msg, snd (on_click pg (TQuick h) ld) = (pre ++ [EAlert msg])%list.
Proof.
  intros Hf. simpl. destruct (js_truthy_str h); simpl.
  - destruct ld.
    + split; [reflexivity|]. split; [reflexivity|]. eexists [_; _], _. reflexivity.
    + unfold ensureModal, is_open. destruct (modal pg) eqn:E; simpl;
        (split; [rewrite ?E; reflexivity|]); (split; [reflexivity|]);
        eexists [_; _], _; reflexivity.
    + destruct Hf as [Hf | Hf]; [congruence | discriminate].
  - split; [reflexivity|]. split; [reflexivity|]. exists [], "Product handle missing". reflexivity.
Qed.

Lemma failed_quick_view_alerts_witness :
  is_open (fst (on_click {| modal := Some true; no_scroll := true |} (TQuick (Some "tee")) RenderFail)) = true /\
  no_scroll (fst (on_click {| modal := Some true; no_scroll := true |} (TQuick (Some "tee")) RenderFail)) = true.
Proof.
  assert (Hld : RenderFail <> Loaded \/ js_truthy_str (Some "tee") = false) by (left; discriminate).
  destruct (failed_quick_view_alerts {| modal := Some true; no_scroll := true |} (Some "tee") RenderFail Hld)
    as [H1 [H2 _]].
  split; [exact H1 | exact H2].
Defined.

(* ------------------------------------------------------------------ *)
(** ** Add button state *)

(** The add button is disabled while the add runs; it stays disabled
    after a successful primary add (the page navigates to the cart, a
    failed upsell included), and is enabled again after a failed primary
    add or when no variant is selected. *)
Theorem add_button_final_state (p : product) (vid : option Z) (qty : string)
  (c f : option section) (oracle : list net) :
  let tr := trace (snd (run (on_add_click p vid qty c f) oracle)) in
  hd_error tr = Some (EDisabled true) /\
  last_disabled tr false =
    match vid with
    | None => false
    | Some _ => match hd NetErr oracle with NetOk => true | _ => false end
    end.
Proof.
  cbv zeta. destruct vid as [id|]; [|split; reflexivity].
  destruct (hd NetErr oracle) eqn:Eh.
  - destruct oracle as [|o rest]; [discriminate|]. simpl in Eh; subst o.
    rewrite on_add_click_ok.
    destruct (getUpsellVariantIdFromSection c f) as [u|];
      [destruct (upsell_due p id c f); [destruct rest as [|[| |] r]|]|]; split; reflexivity.
  - rewrite on_add_click_fail by (rewrite Eh; discriminate). split; reflexivity.
  - rewrite on_add_click_fail by (rewrite Eh; discriminate). split; reflexivity.
Qed.

End QuickView.

(* ================================================================== *)
(** * The add handler on examples

    The handler run with the ASCII case mapping, on which every
    [toLowerCase] agrees for these ASCII option values. *)

Open Scope list_scope.

Lemma preseed_same_as_manual_witness :
  wf_product tee /\ selector_safe tee /\ ~ In "__proto__"%string (options tee) /\
  options tee <> [] /\ initial_variant tee = Some black_medium /\
  preseed tee empty_display = manual_clicks tee black_medium empty_display /\
  snd (preseed tee empty_display) = shows tee black_medium.
Proof.
  assert (Hproto : ~ In "__proto__"%string (options tee)) by (simpl; intuition discriminate).
  assert (Hne : options tee <> []) by discriminate.
  assert (Hinit : initial_variant tee = Some black_medium) by reflexivity.
  destruct (preseed_same_as_manual tee empty_display black_medium tee_wf tee_selector_safe
              Hproto Hne Hinit) as (H1 & H2 & _).
  exact (conj tee_wf (conj tee_selector_safe (conj Hproto (conj Hne (conj Hinit (conj H1 H2)))))).
Defined.

Lemma upsell_iff_black_medium_witness :
  upsell_rule_spec toLowerCase_ascii blackout_product 7 (Some upsell_section) None /\
  exists u,
    getUpsellVariantIdFromSection (Some upsell_section) None = Some u /\
    post_calls (trace (snd (run (on_add_click toLowerCase_ascii blackout_product (Some 7) "" (Some upsell_section) None)
                                [NetOk; NetOk]))) =
    [(num_of_Z 7, quantity_of ""); (u, num_of_Z 1)].
Proof.
  assert (H : upsell_rule_spec toLowerCase_ascii blackout_product 7 (Some upsell_section) None).
  { exists blackout_variant. split; [reflexivity|]. split; [|split].
    - exists 1%nat, "Blackout"%string. repeat split; try lia; try discriminate.
      exists ""%string, "out"%string. reflexivity.
    - exists 2%nat, "Medium-ish"%string. repeat split; try lia; try discriminate.
      exists ""%string, "-ish"%string. reflexivity.
    - vm_compute. discriminate. }
  split; [exact H|].
  exact (proj1 (upsell_iff_black_medium toLowerCase_ascii blackout_product 7 "" (Some upsell_section) None [NetOk]) H).
Defined.

Lemma upsell_after_primary_then_navigate_witness :
  hd NetErr [NetOk; NetBad] = NetOk /\
  exists up,
    trace (snd (run (on_add_click toLowerCase_ascii blackout_product (Some 7) "2" (Some upsell_section) None)
                    [NetOk; NetBad])) =
    [EDisabled true; EMsg "Adding..."; EPost (num_of_Z 7) (quantity_of "2")] ++ up ++ [ENavigate] /\
    (up = [] \/ exists u, up = EPost u (num_of_Z 1) :: [EWarn]).
Proof.
  split; [reflexivity|].
  pose proof (upsell_after_primary_then_navigate toLowerCase_ascii blackout_product 7 "2" (Some upsell_section) None
                [NetOk; NetBad]) as H.
  destruct (run (on_add_click toLowerCase_ascii blackout_product (Some 7) "2" (Some upsell_section) None) [NetOk; NetBad])
    as [r s].
  destruct H as (_ & _ & H). exact (H eq_refl).
Defined.

Lemma primary_failure_no_retry_witness :
  hd NetErr [NetBad; NetOk] <> NetOk /\
  run (on_add_click toLowerCase_ascii blackout_product (Some 7) "1" (Some upsell_section) None) [NetBad; NetOk] =
  (Ret tt, {| pending := [NetOk];
              trace := [EDisabled true; EMsg "Adding...";
                        EPost (num_of_Z 7) (quantity_of "1"); EError;
                        EMsg "Could not add to cart. Try again."; EDisabled false] |}).
Proof.
  split; [simpl; discriminate|].
  apply (primary_failure_no_retry toLowerCase_ascii blackout_product 7 "1" (Some upsell_section) None [NetBad; NetOk]).
  simpl; discriminate.
Defined.

Lemma load_then_add_session_id_witness :
  variants no_variant_product = [] /\ d_variantId previous_display = Some 12 /\
  post_calls (trace (snd (run (on_add_click toLowerCase_ascii no_variant_product
                                 (d_variantId (snd (load_product no_variant_product previous_display)))
                                 "1" (Some upsell_section) None) [NetOk]))) =
  [(num_of_Z 12, quantity_of "1")].
Proof.
  split; [reflexivity|]. split; [reflexivity|].
  apply (proj2 (proj2 (load_then_add_session_id toLowerCase_ascii no_variant_product previous_display "1"
                        (Some upsell_section) None []) eq_refl) 12 eq_refl).
Defined.
